(** * go-charts: the coordinate box ([draw.go]) and the bar chart renderer

    A shallow embedding of the two Go files of the chart rendering core:
    - [draw.go]: the [Draw] coordinate box, its construction, the bounded
      walk to the top of the parent chain and the primitive passthroughs;
    - the bar chart file: [barChart.render], the layout of the bars, the
      deferred labels and the mark point / mark line overlays.

    Go's [int] is modelled as [Z] with 64-bit two's complement wrap-around
    written out; run-time panics (division by zero, index out of range) are
    explicit outcomes; the draw calls reaching the surface are recorded in
    a call log that is threaded through the code. *)

From Stdlib Require Import ZArith List String Bool Lia.
From stdpp Require Import base list gmap.

Local Open Scope Z_scope.

(* ===================================================================== *)
(** ** Go integers *)
(* ===================================================================== *)

Module GoInt.

Definition min_int : Z := - 2 ^ 63.
Definition max_int : Z := 2 ^ 63 - 1.

(** Two's complement reduction of a mathematical integer to [int]. *)
Definition wrap (x : Z) : Z := (x + 2 ^ 63) mod 2 ^ 64 - 2 ^ 63.

Definition add (x y : Z) : Z := wrap (x + y).
Definition sub (x y : Z) : Z := wrap (x - y).
Definition mul (x y : Z) : Z := wrap (x * y).

(** [x / y] of Go: the quotient truncated toward zero; a zero divisor
    is a run-time panic ([None]). *)
Definition quo (x y : Z) : option Z :=
  if y =? 0 then None else Some (wrap (Z.quot x y)).

(** [x >> n] of Go on a signed integer: the arithmetic shift. *)
Definition shr (x n : Z) : Z := Z.shiftr x n.

Definition in_int (x : Z) : Prop := min_int <= x <= max_int.

#[global] Arguments wrap : simpl never.
#[global] Arguments add : simpl never.
#[global] Arguments sub : simpl never.
#[global] Arguments mul : simpl never.
#[global] Arguments quo : simpl never.
#[global] Arguments shr : simpl never.

End GoInt.

(* ===================================================================== *)
(** ** The go-chart library, as far as the two files use it *)
(* ===================================================================== *)

(** The types of the libraries the package imports, kept abstract: colours,
    fonts, floating point numbers, errors and the calls of the overlay
    painters; with the zero values Go gives to the fields a composite
    literal leaves out. *)
Class Foreign := {
  Color : Type;                      (* drawing.Color *)
  Color_zero : Color;
  Color_IsZero : Color -> bool;
  truetype_Font : Type;              (* *truetype.Font *)
  Font_nil : truetype_Font;
  Float64 : Type;                    (* float64 *)
  Float64_zero : Float64;
  Float64_sub : Float64 -> Float64 -> Float64;
  Float64_to_int : Float64 -> Z;     (* the conversion int(f) *)
  Err : Type;                        (* error *)
  errors_New : string -> Err;
  chart_Renderer : Type;             (* chart.Renderer, a reference *)
  Renderer_nil : chart_Renderer;
  LineStyle : Type;
  AxisRange : Type;                  (* axisRange *)
  AxisRange_zero : AxisRange;
  LabelFormatter : Type;
  OverlayCall : Type;                (* a draw call of an overlay painter *)
}.

Module chart.

(** [chart.Box], the pixel bounds. *)
Record Box := mkBox { Top : Z; Left : Z; Right : Z; Bottom : Z }.

Definition BoxZero : Box := mkBox 0 0 0 0.

(** [Box.Clone]: a copy, field by field. *)
Definition Clone (b : Box) : Box :=
  {| Top := Top b; Left := Left b; Right := Right b; Bottom := Bottom b |}.

(** [chart.Style], with the fields the two files set. *)
Record Style `{Foreign} := mkStyle {
  FillColor : Color;
  FontColor : Color;
  FontSize : Float64;
  Font : truetype_Font;
}.

Definition StyleZero `{Foreign} : Style :=
  mkStyle _ Color_zero Color_zero Float64_zero Font_nil.

End chart.

(** [Point] of the package. *)
Record Point := mkPoint { X : Z; Y : Z }.

(** A value of type [(T, error)]. *)
Inductive result `{Foreign} (A : Type) : Type :=
| Ok (a : A)
| Fail (e : Err).
Arguments Ok {_ A} a.
Arguments Fail {_ A} e.

Definition result_bind `{Foreign} {A B : Type}
    (r : result A) (k : A -> result B) : result B :=
  match r with
  | Ok a => k a
  | Fail e => Fail e
  end.

Notation "x <-! e ;; k" := (result_bind e (fun x => k))
  (at level 100, e at next level, right associativity).

(* ===================================================================== *)
(** ** [draw.go] *)
(* ===================================================================== *)

Module draw.
Section Draw.
Context `{F : Foreign}.
Import GoInt.

(** What [draw.go] calls in go-chart. *)
Class Backend := {
GetDefaultFont : truetype_Font;
chart_SVG : Z -> Z -> result chart_Renderer;
chart_PNG : Z -> Z -> result chart_Renderer;
LineStyle_Style : LineStyle -> chart.Style;
ShouldDrawStroke : chart.Style -> bool;
GetStrokeOptions : chart.Style -> chart.Style;
}.
Context `{B : Backend}.

(** A [*Draw] is an address; [nil] is [None]. *)
Definition ptr := nat.

Record Draw := mkDraw {
Render : chart_Renderer;
Box : chart.Box;
Font : truetype_Font;
parent : option ptr;
}.

(** The store of the [Draw] values the pointers refer to. A Go pointer
  that is not [nil] always refers to a value, so the store is total;
  nothing forbids a cycle through [parent]. *)
Definition Heap := ptr -> Draw.

Record DrawOption := mkDrawOption {
Type_ : string;
Parent : option ptr;
Width : Z;
Height : Z;
}.

(** [type Option]: a function from a [Draw] pointer to [error]; it
  mutates the [Draw] it is given, so the model returns the new value
  with the error. *)
Definition Option := Draw -> Draw * option Err.

Definition set_Box (d : Draw) (b : chart.Box) : Draw :=
{| Render := Render d; Box := b; Font := Font d; parent := parent d |}.

Definition set_Render (d : Draw) (r : chart_Renderer) : Draw :=
{| Render := r; Box := Box d; Font := Font d; parent := parent d |}.

Definition PaddingOption (padding : chart.Box) : Option := fun d =>
let b := Box d in
(set_Box d {| chart.Left := add (chart.Left b) (chart.Left padding);
              chart.Top := add (chart.Top b) (chart.Top padding);
              chart.Right := sub (chart.Right b) (chart.Right padding);
              chart.Bottom := sub (chart.Bottom b) (chart.Bottom padding) |},
 None).

(** The loop [for _, o := range opts] of [NewDraw]. *)
Fixpoint apply_opts (opts : list Option) (d : Draw) : result Draw :=
match opts with
| [] => Ok d
| o :: rest =>
    let '(d', err) := o d in
    match err with
    | Some e => Fail e
    | None => apply_opts rest d'
    end
end.

Definition is_nil {A : Type} (p : option A) : bool :=
match p with None => true | Some _ => false end.

(** [NewDraw], up to the options: lines 68 to 97. *)
Definition NewDraw_base (h : Heap) (opt : DrawOption) : result Draw :=
if is_nil (Parent opt) && ((Width opt <=? 0) || (Height opt <=? 0))
then Fail (errors_New "parent and width/height can not be nil")
else
  let font := GetDefaultFont in
  let d := {| Render := Renderer_nil; Box := chart.BoxZero;
              Font := font; parent := None |} in
  let width := Width opt in
  let height := Height opt in
  let d :=
    match Parent opt with
    | Some p =>
        {| Render := Render (h p); Box := chart.Clone (Box (h p));
           Font := Font d; parent := Some p |}
    | None => d
    end in
  let d :=
    if negb (width =? 0) && negb (height =? 0)
    then set_Box d {| chart.Top := chart.Top (Box d);
                      chart.Left := chart.Left (Box d);
                      chart.Right := add width (chart.Left (Box d));
                      chart.Bottom := add height (chart.Top (Box d)) |}
    else d in
  match parent d with
  | None =>
      let fn := if String.eqb (Type_ opt) "png" then chart_PNG else chart_SVG in
      r <-! fn (chart.Right (Box d)) (chart.Bottom (Box d)) ;;
      Ok (set_Render d r)
  | Some _ => Ok d
  end.

Definition NewDraw (h : Heap) (opt : DrawOption) (opts : list Option)
  : result Draw :=
d <-! NewDraw_base h opt ;;
apply_opts opts d.

Definition Parent_ (h : Heap) (d : ptr) : option ptr := parent (h d).

(** The loop [for i := 50; i > 0; i--] of [Top], started at [t]: the
  pointer it ends on, and the number of times it ran [t = t.parent]. *)
Fixpoint Top_loop (h : Heap) (i : nat) (t : ptr) : ptr * nat :=
match i with
| O => (t, O)
| S i' =>
    match parent (h t) with
    | None => (t, O)
    | Some p => let '(r, n) := Top_loop h i' p in (r, S n)
    end
end.

Definition Top (h : Heap) (d : ptr) : option ptr :=
match parent (h d) with
| None => None
| Some t => Some (fst (Top_loop h 50 t))
end.

(** [chain h d k a]: [a] is reached from [d] by [k] steps to the parent. *)
Inductive chain (h : Heap) : ptr -> nat -> ptr -> Prop :=
| chain_here d : chain h d O d
| chain_up d t k a :
  parent (h d) = Some t -> chain h t k a -> chain h d (S k) a.

(** The chain of [d] never ends: no ancestor has a nil parent. *)
Definition endless (h : Heap) (d : ptr) : Prop :=
forall k a, chain h d k a -> parent (h a) <> None.

(** The calls a [chart.Renderer] receives. *)
Inductive RendererCall :=
| MoveTo (x y : Z)
| LineTo (x y : Z)
| Circle (radius : Float64) (x y : Z)
| Text (body : string) (x y : Z)
| Stroke
| FillStroke
| WriteDrawingOptionsToRenderer (s : chart.Style)
| WriteToRenderer (s : chart.Style).

(** The state of the renderer [d.Render] refers to: its call log. *)
Definition Surface := list RendererCall.

Definition moveTo (d : Draw) (x y : Z) (r : Surface) : Surface :=
r ++ [MoveTo (add x (chart.Left (Box d))) (add y (chart.Top (Box d)))].

Definition lineTo (d : Draw) (x y : Z) (r : Surface) : Surface :=
r ++ [LineTo (add x (chart.Left (Box d))) (add y (chart.Top (Box d)))].

Definition circle (d : Draw) (radius : Float64) (x y : Z) (r : Surface)
  : Surface :=
r ++ [Circle radius (add x (chart.Left (Box d))) (add y (chart.Top (Box d)))].

Definition text (d : Draw) (body : string) (x y : Z) (r : Surface) : Surface :=
r ++ [Text body (add x (chart.Left (Box d))) (add y (chart.Top (Box d)))].

(** The loop [for index, point := range points] of [lineStroke]. *)
Fixpoint lineStroke_loop (d : Draw) (index : nat) (points : list Point)
  (r : Surface) : Surface :=
match points with
| [] => r
| point :: rest =>
    let x := X point in
    let y := Y point in
    let r' := if Nat.eqb index 0 then moveTo d x y r else lineTo d x y r in
    lineStroke_loop d (S index) rest r'
end.

Definition lineStroke (d : Draw) (points : list Point) (style : LineStyle)
  (r : Surface) : Surface :=
let s := LineStyle_Style style in
if negb (ShouldDrawStroke s) then r
else
  let r := r ++ [WriteDrawingOptionsToRenderer (GetStrokeOptions s)] in
  let r := lineStroke_loop d O points r in
  r ++ [Stroke].

Definition setBackground (d : Draw) (width height : Z) (color : Color)
  (r : Surface) : Surface :=
let s := {| chart.FillColor := color;
            chart.FontColor := Color_zero;
            chart.FontSize := Float64_zero;
            chart.Font := Font_nil |} in
r ++ [WriteToRenderer s;
      MoveTo 0 0;
      LineTo width 0;
      LineTo width height;
      LineTo 0 height;
      LineTo 0 0;
      FillStroke].

(** The spec's [fillBackground], following its words and named apart
  from [setBackground] to be compared with it: the four corners are
  given in local coordinates and each is translated by the offset of
  the box, as the other passthroughs do, before the path is filled. *)
Definition spec_fillBackground (d : Draw) (width height : Z) (color : Color)
  (r : Surface) : Surface :=
let s := {| chart.FillColor := color;
            chart.FontColor := Color_zero;
            chart.FontSize := Float64_zero;
            chart.Font := Font_nil |} in
let r := r ++ [WriteToRenderer s] in
let r := moveTo d 0 0 r in
let r := lineTo d width 0 r in
let r := lineTo d width height r in
let r := lineTo d 0 height r in
let r := lineTo d 0 0 r in
r ++ [FillStroke].

(** Two paddings added side by side, with Go's addition. *)
Definition padding_sum (p1 p2 : chart.Box) : chart.Box :=
  {| chart.Top := add (chart.Top p1) (chart.Top p2);
     chart.Left := add (chart.Left p1) (chart.Left p2);
     chart.Right := add (chart.Right p1) (chart.Right p2);
     chart.Bottom := add (chart.Bottom p1) (chart.Bottom p2) |}.

End Draw.
End draw.

(* ===================================================================== *)
(** ** The bar chart file *)
(* ===================================================================== *)

Module bar_chart.
Section BarChart.
Context `{F : Foreign}.
Import GoInt.

Record SeriesData := mkSeriesData {
Value : Float64;
Style : chart.Style;
}.

Record SeriesLabel := mkSeriesLabel {
Formatter : LabelFormatter;
LabelColor : Color;                (* the field [Color] *)
Show : bool;
Distance : Z;
}.

Record Series := mkSeries {
index : Z;
Name : string;
Data : list SeriesData;
AxisIndex : Z;
Label : SeriesLabel;
}.

Definition SeriesList := list Series.

(** [series.index], where the loop variable [index] hides the field. *)
Definition series_index (s : Series) : Z := index s.

(** Modelled from the spec: [SeriesList.Names], the display names of the
  series, is not in the sources. *)
Definition Names (sl : SeriesList) : list string := map Name sl.

(** The interface [ColorPalette], as the record of its methods. *)
Record ColorPalette := mkColorPalette {
GetSeriesColor : Z -> Color;
GetTextColor : Color;
}.

(** [BarChartOption]; [render] reads the theme, the font and the
  categories of the x axis. [NewBarChart] has replaced a nil theme. *)
Record BarChartOption := mkBarChartOption {
Theme : ColorPalette;
Font : truetype_Font;
XAxis_Data : list string;
}.

Record barChartLabelRenderOption := mkLabelRenderOption {
lbl_Text : string;
lbl_Style : chart.Style;
lbl_X : Z;
lbl_Y : Z;
}.

Record Painter := mkPainter { box : chart.Box }.

Record barChart := mkBarChart { p : Painter; opt : BarChartOption }.

(** [defaultRenderResult]: [axisRanges] is a Go map, a lookup of a key
  that is absent gives the zero value. *)
Record defaultRenderResult := mkRenderResult {
axisRanges : gmap Z AxisRange;
seriesPainter : Painter;
}.

Record markPointRenderOption := mkMarkPointOption {
mp_FillColor : Color;
mp_Font : truetype_Font;
mp_Series : Series;
mp_Points : list Point;
}.

Record markLineRenderOption := mkMarkLineOption {
ml_FillColor : Color;
ml_FontColor : Color;
ml_StrokeColor : Color;
ml_Font : truetype_Font;
ml_Series : Series;
ml_Range : AxisRange;
}.

(** The calls the series painter receives during one [render]. *)
Inductive PainterCall :=
| OverrideDrawingStyle (s : chart.Style)
| Rect (b : chart.Box)
| OverrideTextStyle (s : chart.Style)
| Text (body : string) (x y : Z)
| Overlay (c : OverlayCall).

Definition Trace := list PainterCall.

(** The functions of the package [render] calls that are not in the
  sources. A text is measured in the state the painter is in, which
  the calls issued so far determine. *)
Class Collaborators := {
NewRange : Z -> Z -> AxisRange;
GetRange : AxisRange -> Z -> Float64 * Float64;
divideCount : AxisRange -> Z;
AutoDivide : AxisRange -> list Z;
getHeight : AxisRange -> Float64 -> Float64;
Painter_Width : Painter -> Z;
Painter_Height : Painter -> Z;
MeasureText : Painter -> Trace -> string -> chart.Box;
Box_Width : chart.Box -> Z;
labelFontSize : Float64;
NewValueLabelFormatter :
  list string -> LabelFormatter -> Z -> Float64 -> Z -> string;
markPointPainter_Render :
  Painter -> list markPointRenderOption -> Trace -> list OverlayCall * option Err;
markLinePainter_Render :
  Painter -> list markLineRenderOption -> Trace -> list OverlayCall * option Err;
}.
Context `{C : Collaborators}.

(** The interface [Renderer] of the overlay painters: [Render] draws on
  the shared surface and may fail. *)
Definition Renderer := Trace -> Trace * option Err.

Definition markPointPainter (sp : Painter) (opts : list markPointRenderOption)
  : Renderer :=
fun t => let '(cs, e) := markPointPainter_Render sp opts t in
         (t ++ map Overlay cs, e).

Definition markLinePainter (sp : Painter) (opts : list markLineRenderOption)
  : Renderer :=
fun t => let '(cs, e) := markLinePainter_Render sp opts t in
         (t ++ map Overlay cs, e).

(** Modelled from the spec: [doRender] is not in the sources; it invokes
  the overlay painters in order, and a failure of one aborts the
  render and is the error returned. *)
Fixpoint doRender (renderers : list Renderer) (t : Trace)
  : Trace * option Err :=
match renderers with
| [] => (t, None)
| r :: rest =>
    let '(t', err) := r t in
    match err with
    | Some e => (t', Some e)
    | None => doRender rest t'
    end
end.

(** A computation that may panic; the calls issued before the panic have
  reached the surface. *)
Inductive run (A : Type) : Type :=
| Done (a : A)
| Panic (msg : string) (t : Trace).
Arguments Done {A} a.
Arguments Panic {A} msg t.

(** Lines 84 to 93: the spacing chosen from the width of a slot. *)
Definition margin (width : Z) : Z :=
if width <? 20 then 2 else if width <? 50 then 5 else 10.

Definition barMargin (width : Z) : Z :=
if width <? 20 then 2 else if width <? 50 then 3 else 5.

(** Line 96; [None] is the panic of a division by zero. *)
Definition barWidth (width seriesCount : Z) : option Z :=
quo (sub (sub width (mul 2 (margin width)))
         (mul (barMargin width) (sub seriesCount 1)))
    seriesCount.

(** Lines 77 to 82. *)
Definition render_xRange (b : barChart) (result : defaultRenderResult)
  : AxisRange :=
NewRange (Z.of_nat (length (XAxis_Data (opt b))))
         (Painter_Width (seriesPainter result)).

Definition render_width (b : barChart) (result : defaultRenderResult) : Z :=
let '(x0, x1) := GetRange (render_xRange b result) 0 in
Float64_to_int (Float64_sub x1 x0).

(** The state of the loop over the data of one series. *)
Record ItemState := mkItemState {
it_trace : Trace;
it_labels : list barChartLabelRenderOption;
it_points : list Point;
}.

(** The state of the loop over the series: the calls issued, the deferred
  labels, and what has been added to the two overlay painters. *)
Record LoopState := mkLoopState {
trace : Trace;
labelRenderOptions : list barChartLabelRenderOption;
markPointOpts : list markPointRenderOption;
markLineOpts : list markLineRenderOption;
}.

Definition fill_style (c : Color) : chart.Style :=
{| chart.FillColor := c; chart.FontColor := Color_zero;
   chart.FontSize := Float64_zero; chart.Font := Font_nil |}.

Section SeriesBody.
Variables (b : barChart) (result : defaultRenderResult).
Variable seriesNames : list string.
Variables vmargin vbarMargin vbarWidth barMaxHeight : Z.

Section Items.
Variables (index : nat) (series : Series).
Variables (yRange : AxisRange) (seriesColor : Color).
Variable divideValues : list Z.

(** Lines 119 to 123: the left edge of the bar. *)
Definition bar_x (x : Z) : Z :=
let x := add x vmargin in
if negb (Nat.eqb index 0)
then add x (mul (Z.of_nat index) (add vbarWidth vbarMargin))
else x.

(** The loop [for j, item := range series.Data], lines 115 to 178. *)
Fixpoint items_loop (j : nat) (items : list SeriesData) (st : ItemState)
  : run ItemState :=
match items with
| [] => Done st
| item :: rest =>
    if Z.of_nat j >=? divideCount (render_xRange b result)
    then items_loop (S j) rest st
    else
      match divideValues !! j with
      | None => Panic "index out of range" (it_trace st)
      | Some x =>
          let x := bar_x x in
          let h := Float64_to_int (getHeight yRange (Value item)) in
          let fillColor :=
            if negb (Color_IsZero (chart.FillColor (Style item)))
            then chart.FillColor (Style item)
            else seriesColor in
          let top := sub barMaxHeight h in
          let tr := it_trace st ++
            [OverrideDrawingStyle (fill_style fillColor);
             Rect {| chart.Top := top;
                     chart.Left := x;
                     chart.Right := add x vbarWidth;
                     chart.Bottom := sub barMaxHeight 1 |}] in
          let points :=
            <[j := {| X := add x (shr vbarWidth 1); Y := top |}]>
              (it_points st) in
          let points :=
            <[j := {| X := add x (shr vbarWidth 1); Y := top |}]>
              points in
          if negb (Show (Label series))
          then items_loop (S j) rest (mkItemState tr (it_labels st) points)
          else
            let distance := Distance (Label series) in
            let distance := if distance =? 0 then 5 else distance in
            let text :=
              NewValueLabelFormatter seriesNames
                (Formatter (Label series))
                (Z.of_nat index) (Value item) (-1) in
            let labelStyle :=
              {| chart.FillColor := Color_zero;
                 chart.FontColor := GetTextColor (Theme (opt b));
                 chart.FontSize := labelFontSize;
                 chart.Font := Font (opt b) |} in
            let labelStyle :=
              if negb (Color_IsZero (LabelColor (Label series)))
              then {| chart.FillColor := chart.FillColor labelStyle;
                      chart.FontColor := LabelColor (Label series);
                      chart.FontSize := chart.FontSize labelStyle;
                      chart.Font := chart.Font labelStyle |}
              else labelStyle in
            let textBox := MeasureText (seriesPainter result) tr text in
            let labels := it_labels st ++
              [{| lbl_Text := text;
                  lbl_Style := labelStyle;
                  lbl_X := add x (shr (sub vbarWidth (Box_Width textBox)) 1);
                  lbl_Y := sub (sub barMaxHeight h) distance |}] in
            items_loop (S j) rest (mkItemState tr labels points)
      end
end.
End Items.

(** The body of the loop [for index := range seriesList], lines 109
  to 193. *)
Definition series_body (index : nat) (series : Series) (st : LoopState)
  : run LoopState :=
let yRange := default AxisRange_zero (axisRanges result !! AxisIndex series) in
let seriesColor := GetSeriesColor (Theme (opt b)) (series_index series) in
let divideValues := AutoDivide (render_xRange b result) in
let points := replicate (length (Data series)) (mkPoint 0 0) in
match items_loop index series yRange seriesColor divideValues O (Data series)
        (mkItemState (trace st) (labelRenderOptions st) points) with
| Panic msg t => Panic msg t
| Done it =>
    Done {| trace := it_trace it;
            labelRenderOptions := it_labels it;
            markPointOpts := markPointOpts st ++
              [{| mp_FillColor := seriesColor;
                  mp_Font := Font (opt b);
                  mp_Series := series;
                  mp_Points := it_points it |}];
            markLineOpts := markLineOpts st ++
              [{| ml_FillColor := seriesColor;
                  ml_FontColor := GetTextColor (Theme (opt b));
                  ml_StrokeColor := seriesColor;
                  ml_Font := Font (opt b);
                  ml_Series := series;
                  ml_Range := yRange |}] |}
end.

Fixpoint series_loop (index : nat) (rest : SeriesList) (st : LoopState)
  : run LoopState :=
match rest with
| [] => Done st
| series :: tl =>
    match series_body index series st with
    | Panic msg t => Panic msg t
    | Done st' => series_loop (S index) tl st'
    end
end.
End SeriesBody.

(** [render] up to the end of the loop over the series, lines 73 to 194. *)
Definition render_series (b : barChart) (result : defaultRenderResult)
  (seriesList : SeriesList) : run LoopState :=
let width := render_width b result in
let seriesCount := Z.of_nat (length seriesList) in
match barWidth width seriesCount with
| None => Panic "integer divide by zero" []
| Some bw =>
    let barMaxHeight := Painter_Height (seriesPainter result) in
    let seriesNames := Names seriesList in
    series_loop b result seriesNames (margin width) (barMargin width) bw
      barMaxHeight O seriesList (mkLoopState [] [] [] [])
end.

(** The loop of lines 195 to 198: the deferred labels are drawn. *)
Definition flush_labels (labels : list barChartLabelRenderOption) (t : Trace)
  : Trace :=
fold_left
  (fun t labelOpt =>
     t ++ [OverrideTextStyle (lbl_Style labelOpt);
           Text (lbl_Text labelOpt) (lbl_X labelOpt) (lbl_Y labelOpt)])
  labels t.

(** How a call of [render] ends. *)
Inductive Outcome :=
| Returned (bx : chart.Box) (err : option Err)
| Panicked (msg : string).

(** [barChart.render]: the calls issued on the series painter, and the
  outcome. *)
Definition render (b : barChart) (result : defaultRenderResult)
  (seriesList : SeriesList) : Trace * Outcome :=
match render_series b result seriesList with
| Panic msg t => (t, Panicked msg)
| Done st =>
    let rendererList :=
      [markPointPainter (seriesPainter result) (markPointOpts st);
       markLinePainter (seriesPainter result) (markLineOpts st)] in
    let t := flush_labels (labelRenderOptions st) (trace st) in
    let '(t, err) := doRender rendererList t in
    match err with
    | Some e => (t, Returned chart.BoxZero (Some e))
    | None => (t, Returned (box (p b)) None)
    end
end.

(** The three kinds of calls of one [render]: the rectangles of the bars
  with their drawing style, the texts of the labels with their text
  style, and what the overlay painters draw. *)
Definition is_bar_call (c : PainterCall) : bool :=
match c with
| OverrideDrawingStyle _ | Rect _ => true
| _ => false
end.

Definition is_label_call (c : PainterCall) : bool :=
match c with
| OverrideTextStyle _ | Text _ _ _ => true
| _ => false
end.

Definition is_overlay_call (c : PainterCall) : bool :=
match c with
| Overlay _ => true
| _ => false
end.

(** The calls that have reached the surface when a computation ends. *)
Definition item_calls (r : run ItemState) : Trace :=
match r with
| Done st => it_trace st
| Panic _ t => t
end.

Definition loop_calls (r : run LoopState) : Trace :=
match r with
| Done st => trace st
| Panic _ t => t
end.

(** What the loop over the data of the series number [index] leaves
  behind, for the spacing, the bar width and the height it was run
  with: the option [mp] added to the mark point painter holds the
  series and one point per data item; an item at or beyond the category
  count keeps the zero point; an item [j] before it has its rectangle
  among the calls [tr] and the point computed from the same left edge
  and top. *)
Definition registered (b : barChart) (result : defaultRenderResult)
  (vmargin vbarMargin vbarWidth barMaxHeight : Z)
  (index : nat) (series : Series) (mp : markPointRenderOption)
  (tr : Trace) : Prop :=
let xRange := render_xRange b result in
let yRange := default AxisRange_zero (axisRanges result !! AxisIndex series) in
mp_Series mp = series /\
length (mp_Points mp) = length (Data series) /\
(forall j : nat,
   divideCount xRange <= Z.of_nat j -> (j < length (Data series))%nat ->
   mp_Points mp !! j = Some (mkPoint 0 0)) /\
(forall (j : nat) (item : SeriesData),
   Data series !! j = Some item -> Z.of_nat j < divideCount xRange ->
   exists dv : Z,
     AutoDivide xRange !! j = Some dv /\
     let x := bar_x vmargin vbarMargin vbarWidth index dv in
     let top := sub barMaxHeight
                    (Float64_to_int (getHeight yRange (Value item))) in
     In (Rect {| chart.Top := top;
                 chart.Left := x;
                 chart.Right := add x vbarWidth;
                 chart.Bottom := sub barMaxHeight 1 |}) tr /\
     mp_Points mp !! j = Some {| X := add x (shr vbarWidth 1); Y := top |}).

(** The rectangle calls and the text calls among the calls. *)
Definition is_rect (c : PainterCall) : bool :=
  match c with
  | Rect _ => true
  | _ => false
  end.

Definition is_text (c : PainterCall) : bool :=
  match c with
  | Text _ _ _ => true
  | _ => false
  end.

Definition count_calls (f : PainterCall -> bool) (t : Trace) : nat :=
  length (List.filter f t).

(** The number of data items of a series that fall on a category: the
    items from the category count on are skipped. *)
Definition drawn_items (b : barChart) (result : defaultRenderResult)
    (series : Series) : nat :=
  Nat.min (length (Data series))
          (Z.to_nat (divideCount (render_xRange b result))).

(** The number of bars of a list of series, and the number of their
    labels: only a series that shows its labels has them. *)
Definition bars_in (b : barChart) (result : defaultRenderResult)
    (sl : SeriesList) : nat :=
  list_sum (map (drawn_items b result) sl).

Definition labels_in (b : barChart) (result : defaultRenderResult)
    (sl : SeriesList) : nat :=
  list_sum (map (fun s => if Show (Label s) then drawn_items b result s else O) sl).

(** What the body of the loop over the items computes for one item, named
    to state where it ends up: the height of line 125, the fill colour of
    lines 126 to 129, the rectangle of lines 134 to 139 and the label
    request of lines 156 to 177 for a measured text box. *)
Definition item_height (yRange : AxisRange) (item : SeriesData) : Z :=
  Float64_to_int (getHeight yRange (Value item)).

Definition bar_fill (seriesColor : Color) (item : SeriesData) : Color :=
  if Color_IsZero (chart.FillColor (Style item))
  then seriesColor
  else chart.FillColor (Style item).

Definition bar_rect (vbarWidth barMaxHeight x h : Z) : chart.Box :=
  {| chart.Top := sub barMaxHeight h;
     chart.Left := x;
     chart.Right := add x vbarWidth;
     chart.Bottom := sub barMaxHeight 1 |}.

Definition label_request (b : barChart) (seriesNames : list string)
    (vbarWidth barMaxHeight : Z) (index : nat) (series : Series)
    (item : SeriesData) (x h : Z) (textBox : chart.Box)
    : barChartLabelRenderOption :=
  {| lbl_Text :=
       NewValueLabelFormatter seriesNames (Formatter (Label series))
         (Z.of_nat index) (Value item) (-1);
     lbl_Style :=
       {| chart.FillColor := Color_zero;
          chart.FontColor :=
            if Color_IsZero (LabelColor (Label series))
            then GetTextColor (Theme (opt b))
            else LabelColor (Label series);
          chart.FontSize := labelFontSize;
          chart.Font := Font (opt b) |};
     lbl_X := add x (shr (sub vbarWidth (Box_Width textBox)) 1);
     lbl_Y := sub (sub barMaxHeight h)
                  (if Distance (Label series) =? 0 then 5
                   else Distance (Label series)) |}.

(** The two calls of a label when it is flushed. *)
Definition label_calls (l : barChartLabelRenderOption) : Trace :=
  [OverrideTextStyle (lbl_Style l); Text (lbl_Text l) (lbl_X l) (lbl_Y l)].

End BarChart.
Arguments Done {F A} a.
Arguments Panic {F A} msg t.
End bar_chart.

(* ===================================================================== *)
(** ** Concrete collaborators, to run the code on examples *)
(* ===================================================================== *)

Module demo.

(** Colours are numbers with 0 the zero colour, floating point numbers
    are integral, an error is its message, a renderer is its number, a
    line style says whether its stroke is visible, an axis range is its
    division count and its size. *)
Definition foreign : Foreign :=
  {| Color := Z; Color_zero := 0; Color_IsZero := Z.eqb 0;
     truetype_Font := unit; Font_nil := tt;
     Float64 := Z; Float64_zero := 0; Float64_sub := Z.sub;
     Float64_to_int := fun f => f;
     Err := string; errors_New := fun msg => msg;
     chart_Renderer := nat; Renderer_nil := O;
     LineStyle := bool;
     AxisRange := Z * Z; AxisRange_zero := (0, 0);
     LabelFormatter := unit;
     OverlayCall := string |}.

Definition backend : @draw.Backend foreign :=
  {| draw.GetDefaultFont := tt : @truetype_Font foreign;
     draw.chart_SVG := fun _ _ => @Ok foreign _ (1%nat : @chart_Renderer foreign);
     draw.chart_PNG := fun _ _ => @Ok foreign _ (2%nat : @chart_Renderer foreign);
     draw.LineStyle_Style := fun visible : @LineStyle foreign =>
       @chart.mkStyle foreign 0 (if visible then 1 else 0) 0 tt;
     draw.ShouldDrawStroke := fun s => negb (@chart.FontColor foreign s =? 0);
     draw.GetStrokeOptions := fun s => s |}.

Definition mk (r : nat) (b : chart.Box) (pa : option nat) : @draw.Draw foreign :=
  @draw.mkDraw foreign r b tt pa.

(** A root box 0 of 600 by 400, its child 1, a grandchild 2 and a
    great-grandchild 3. *)
Definition heap_chain : @draw.Heap foreign := fun a =>
  match a with
  | O => mk 7 (chart.mkBox 0 0 600 400) None
  | 1%nat => mk 7 (chart.mkBox 20 10 590 380) (Some 0%nat)
  | 2%nat => mk 7 (chart.mkBox 40 30 300 200) (Some 1%nat)
  | 3%nat => mk 7 (chart.mkBox 50 40 100 100) (Some 2%nat)
  | _ => mk 0 chart.BoxZero None
  end.

(** Two boxes that are each other's parent. *)
Definition heap_cycle : @draw.Heap foreign := fun a =>
  match a with
  | O => mk 7 (chart.mkBox 0 0 10 10) (Some 1%nat)
  | _ => mk 7 (chart.mkBox 0 0 10 10) (Some 0%nat)
  end.

(** The slots of the x axis are [size / divideCount] wide, a value is
    its own height, a character is 6 pixels wide. *)
Definition boundaries (dc size : Z) : list Z :=
  map (fun i => Z.of_nat i * size / dc) (seq 0 (Z.to_nat dc)) ++ [size].

Definition collaborators (fail_point fail_line : bool)
    : @bar_chart.Collaborators foreign :=
  {| bar_chart.NewRange := fun dc size => (dc, size) : @AxisRange foreign;
     bar_chart.GetRange := fun (r : @AxisRange foreign) i =>
       ((i * (snd r / fst r), (i + 1) * (snd r / fst r))
        : @Float64 foreign * @Float64 foreign);
     bar_chart.divideCount := fun r : @AxisRange foreign => fst r;
     bar_chart.AutoDivide := fun r : @AxisRange foreign =>
       boundaries (fst r) (snd r);
     bar_chart.getHeight := fun _ (v : @Float64 foreign) => v;
     bar_chart.Painter_Width := fun sp =>
       chart.Right (bar_chart.box sp) - chart.Left (bar_chart.box sp);
     bar_chart.Painter_Height := fun sp =>
       chart.Bottom (bar_chart.box sp) - chart.Top (bar_chart.box sp);
     bar_chart.MeasureText := fun _ _ s =>
       chart.mkBox 0 0 (6 * Z.of_nat (String.length s)) 12;
     bar_chart.Box_Width := fun bx => chart.Right bx - chart.Left bx;
     bar_chart.labelFontSize := 10 : @Float64 foreign;
     bar_chart.NewValueLabelFormatter := fun _ _ _ _ _ => "v"%string;
     bar_chart.markPointPainter_Render := fun _ _ _ =>
       (["point"%string],
        if fail_point then Some "mark point"%string else None);
     bar_chart.markLinePainter_Render := fun _ _ _ =>
       (["line"%string],
        if fail_line then Some "mark line"%string else None) |}.

Definition item (v : Z) : @bar_chart.SeriesData foreign :=
  @bar_chart.mkSeriesData foreign v (@chart.StyleZero foreign).

Definition series (i : Z) (show : bool) (vs : list Z)
    : @bar_chart.Series foreign :=
  @bar_chart.mkSeries foreign i "s" (map item vs) 0
    (@bar_chart.mkSeriesLabel foreign tt 0 show 0).

Definition theme : @bar_chart.ColorPalette foreign :=
  @bar_chart.mkColorPalette foreign (fun i => i + 1) 9.

(** A plotting area of 300 by 150 with three categories. *)
Definition plot : bar_chart.Painter :=
  bar_chart.mkPainter (chart.mkBox 0 0 300 150).

Definition chart3 : @bar_chart.barChart foreign :=
  @bar_chart.mkBarChart foreign plot
    (@bar_chart.mkBarChartOption foreign theme tt ["a"; "b"; "c"]%string).

Definition result3 : @bar_chart.defaultRenderResult foreign :=
  @bar_chart.mkRenderResult foreign {[ 0 := (10, 150) ]} plot.

(** The points of a line in local coordinates. *)
Definition stroke_points : list Point := [mkPoint 1 2; mkPoint 3 4].

(** Two series over three categories in the plotting area of 300 by
    150; the first shows its labels, the second has four items. *)
Definition two_series : @bar_chart.SeriesList foreign :=
  [series 0 true [10; 20; 5]; series 1 false [1; 2; 3; 4]].

(** Overlay painters that do not fail. *)
Definition quiet : @bar_chart.Collaborators foreign := collaborators false false.

(** Eight series in slots of 9 pixels, which makes the bar width -1. *)
Definition narrow : @bar_chart.barChart foreign :=
  @bar_chart.mkBarChart foreign
    (bar_chart.mkPainter (chart.mkBox 0 0 27 150))
    (@bar_chart.mkBarChartOption foreign theme tt ["a"; "b"; "c"]%string).

Definition narrow_result : @bar_chart.defaultRenderResult foreign :=
  @bar_chart.mkRenderResult foreign {[ 0 := (10, 150) ]}
    (bar_chart.mkPainter (chart.mkBox 0 0 27 150)).

Definition eight_series : @bar_chart.SeriesList foreign :=
  map (fun i => series i false [7]) [0; 1; 2; 3; 4; 5; 6; 7].

(** A chain without end upward in the addresses and with the root 0
    below: the parent of the box n + 1 is the box n. *)
Definition heap_deep : @draw.Heap foreign := fun a =>
  match a with
  | O => mk 7 (chart.mkBox 0 0 600 400) None
  | S n => mk 7 (chart.mkBox 0 0 600 400) (Some n)
  end.

(** An option that fails, and a padding. *)
Definition failing_option : @draw.Option foreign :=
  fun d => (d, Some "bad option"%string).

Definition pad : chart.Box := chart.mkBox 5 8 7 6.

(** A backend whose SVG renderer cannot be made. *)
Definition backend_no_svg : @draw.Backend foreign :=
  {| draw.GetDefaultFont := tt : @truetype_Font foreign;
     draw.chart_SVG := fun _ _ => @Fail foreign _ ("no svg"%string : @Err foreign);
     draw.chart_PNG := fun _ _ => @Ok foreign _ (2%nat : @chart_Renderer foreign);
     draw.LineStyle_Style := fun visible : @LineStyle foreign =>
       @chart.mkStyle foreign 0 (if visible then 1 else 0) 0 tt;
     draw.ShouldDrawStroke := fun s => negb (@chart.FontColor foreign s =? 0);
     draw.GetStrokeOptions := fun s => s |}.


End demo.

(* ===================================================================== *)
(** ** Properties of the Go integers *)
(* ===================================================================== *)

Section GoIntFacts.
Import GoInt.

Lemma wrap_exact x : in_int x -> wrap x = x.
Proof.
  unfold in_int, min_int, max_int, wrap. intros Hx.
  rewrite Z.mod_small by lia. lia.
Qed.

Lemma wrap_in_int x : in_int (wrap x).
Proof.
  unfold in_int, min_int, max_int, wrap.
  pose proof (Z.mod_pos_bound (x + 2 ^ 63) (2 ^ 64) ltac:(lia)). lia.
Qed.

Lemma wrap_idem x : wrap (wrap x) = wrap x.
Proof. apply wrap_exact, wrap_in_int. Qed.

Lemma add_exact x y : in_int (x + y) -> add x y = x + y.
Proof. apply wrap_exact. Qed.

Lemma sub_exact x y : in_int (x - y) -> sub x y = x - y.
Proof. apply wrap_exact. Qed.

Lemma mul_exact x y : in_int (x * y) -> mul x y = x * y.
Proof. apply wrap_exact. Qed.

Lemma add_comm x y : add x y = add y x.
Proof. unfold add. f_equal. lia. Qed.

Lemma add_0_r_wrapped x : add (wrap x) 0 = wrap x.
Proof. unfold add. rewrite Z.add_0_r. apply wrap_idem. Qed.

(** The arithmetic shift by one is the floor of the half. *)
Lemma shr_1_floor x : shr x 1 = x / 2.
Proof. unfold shr. rewrite Z.shiftr_div_pow2 by lia. reflexivity. Qed.

Lemma quo_nonzero x y : y <> 0 -> quo x y = Some (wrap (Z.quot x y)).
Proof.
  intros Hy. unfold quo. destruct (Z.eqb_spec y 0); [contradiction | reflexivity].
Qed.

End GoIntFacts.

(* ===================================================================== *)
(** ** Properties of [draw.go] *)
(* ===================================================================== *)

Module draw_facts.
Section DrawFacts.
Context `{F : Foreign} `{B : !draw.Backend}.
Import GoInt draw.

Lemma chain_snoc h d k a t :
chain h d k a -> parent (h a) = Some t -> chain h d (S k) t.
Proof.
induction 1 as [d | d t' k a Hd Hc IH]; intros Ha.
- econstructor; [eassumption | constructor].
- econstructor; [eassumption | auto].
Qed.

Lemma Top_loop_hops h i t : (snd (Top_loop h i t) <= i)%nat.
Proof.
revert t. induction i as [| i IH]; intros t; simpl; [lia |].
destruct (parent (h t)) as [q |]; simpl; [| lia].
specialize (IH q). destruct (Top_loop h i q) as [r n]. simpl in *. lia.
Qed.

Lemma Top_loop_chain h i t :
chain h t (snd (Top_loop h i t)) (fst (Top_loop h i t)).
Proof.
revert t. induction i as [| i IH]; intros t; simpl; [constructor |].
destruct (parent (h t)) as [q |] eqn:Hq; simpl; [| constructor].
specialize (IH q). destruct (Top_loop h i q) as [r n]. simpl in *.
econstructor; eassumption.
Qed.

(** On a chain that ends within the cap, the loop stops on the root. *)
Lemma Top_loop_root h i t k r :
chain h t k r -> parent (h r) = None -> (k <= i)%nat ->
Top_loop h i t = (r, k).
Proof.
revert t k. induction i as [| i IH]; intros t k Hc Hr Hk.
- assert (k = O) by lia. subst k. inversion Hc; subst. reflexivity.
- simpl. inversion Hc as [d' | d' q k' a Hq Hc']; subst.
  + rewrite Hr. reflexivity.
  + rewrite Hq. rewrite (IH q k' Hc' Hr) by lia. reflexivity.
Qed.

(** On a chain that never ends, the loop uses all its iterations. *)
Lemma Top_loop_endless h i t :
endless h t -> snd (Top_loop h i t) = i.
Proof.
revert t. induction i as [| i IH]; intros t He; simpl; [reflexivity |].
destruct (parent (h t)) as [q |] eqn:Hq.
- assert (Hq' : endless h q).
  { intros k a Hc. apply (He (S k) a). econstructor; eassumption. }
  specialize (IH q Hq'). destruct (Top_loop h i q) as [r n].
  simpl in *. congruence.
- exfalso. apply (He O t); [constructor | assumption].
Qed.

(** The loop of [lineStroke] issues one translated call per point. *)
Lemma lineStroke_loop_calls d index points r :
lineStroke_loop d index points r =
r ++ imap (fun k point =>
             (if Nat.eqb (index + k) 0 then MoveTo else LineTo)
               (add (X point) (chart.Left (Box d)))
               (add (Y point) (chart.Top (Box d)))) points.
Proof.
revert index r. induction points as [| point rest IH]; intros index r; simpl.
- rewrite app_nil_r. reflexivity.
- rewrite IH. rewrite Nat.add_0_r.
  destruct (Nat.eqb index 0); unfold moveTo, lineTo;
    rewrite <- app_assoc; simpl; do 2 f_equal;
    apply imap_ext; intros k point' _; simpl;
    replace (index + S k)%nat with (S index + k)%nat by lia; reflexivity.
Qed.

(** C10. A box whose parent reference is nil is a root, and [Top] of a
  root is nil, not the box itself. *)
Theorem Top_of_root_is_nil h d : parent (h d) = None -> Top h d = None.
Proof. intros Hd. unfold Top. rewrite Hd. reflexivity. Qed.

(** C6. [Top] takes the parent of the box and then runs its loop, which
  is capped at 50 hops: whatever the store, cyclic or not, the loop
  makes at most 50 hops; on a chain that reaches a box without parent
  in 1 to 51 steps (so on every chain of depth 3) the result is that
  root; on a chain that never ends the loop stops after exactly 50
  hops, on the box 51 steps above. *)
Theorem Top_bounded_walk h d :
(forall t, parent (h d) = Some t ->
   (snd (Top_loop h 50 t) <= 50)%nat /\
   Top h d = Some (fst (Top_loop h 50 t))) /\
(forall k r, (1 <= k <= 51)%nat -> chain h d k r -> parent (h r) = None ->
   Top h d = Some r) /\
(endless h d ->
   exists t r, parent (h d) = Some t /\ Top_loop h 50 t = (r, 50%nat) /\
               Top h d = Some r /\ chain h d 51 r).
Proof.
split; [| split].
- intros t Ht. split; [apply Top_loop_hops |].
  unfold Top. rewrite Ht. reflexivity.
- intros k r Hk Hc Hr. unfold Top.
  inversion Hc as [d' | d' t k' a Ht Hc']; subst; [lia |].
  rewrite Ht. rewrite (Top_loop_root h 50 t k' r Hc' Hr) by lia.
  reflexivity.
- intros He.
  destruct (parent (h d)) as [t |] eqn:Ht.
  + assert (Het : endless h t).
    { intros k a Hc. apply (He (S k) a). econstructor; eassumption. }
    pose proof (Top_loop_endless h 50 t Het) as Hn.
    pose proof (Top_loop_chain h 50 t) as Hc.
    destruct (Top_loop h 50 t) as [r n] eqn:Hl. simpl in Hn, Hc. subst n.
    exists t, r. split; [reflexivity |]. split; [exact Hl |]. split.
    * unfold Top. rewrite Ht, Hl. reflexivity.
    * econstructor; eassumption.
  + exfalso. apply (He O d); [constructor | assumption].
Qed.

(** C5. A box made from a parent with a width and a height that are both
  not zero, and no further option, has the parent's left and top, its
  right at left + W and its bottom at top + H (Go's addition), and the
  parent's renderer reference. *)
Theorem NewDraw_from_parent_bounds h ty pa W H :
W <> 0 -> H <> 0 ->
exists d,
  NewDraw h (mkDrawOption ty (Some pa) W H) [] = Ok d /\
  Box d = {| chart.Top := chart.Top (Box (h pa));
             chart.Left := chart.Left (Box (h pa));
             chart.Right := add (chart.Left (Box (h pa))) W;
             chart.Bottom := add (chart.Top (Box (h pa))) H |} /\
  Render d = Render (h pa) /\
  parent d = Some pa.
Proof.
intros HW HH. unfold NewDraw, NewDraw_base. simpl.
destruct (Z.eqb_spec W 0) as [| _]; [contradiction |].
destruct (Z.eqb_spec H 0) as [| _]; [contradiction |].
simpl. eexists. split; [reflexivity |]. simpl.
rewrite (add_comm W), (add_comm H). auto.
Qed.

(** C9. A box made from a parent keeps the clone of the parent's bounds,
  all four fields, as soon as the width or the height of the options
  is zero: the bounds are overwritten only when both are not zero. *)
Theorem NewDraw_zero_size_keeps_bounds h ty pa W H :
W = 0 \/ H = 0 ->
exists d,
  NewDraw h (mkDrawOption ty (Some pa) W H) [] = Ok d /\
  Box d = chart.Clone (Box (h pa)) /\
  chart.Left (Box d) = chart.Left (Box (h pa)) /\
  chart.Top (Box d) = chart.Top (Box (h pa)) /\
  chart.Right (Box d) = chart.Right (Box (h pa)) /\
  chart.Bottom (Box d) = chart.Bottom (Box (h pa)).
Proof.
intros HWH. unfold NewDraw, NewDraw_base. simpl.
assert (Hc : negb (W =? 0) && negb (H =? 0) = false).
{ destruct HWH; subst; simpl; [reflexivity | apply andb_false_r]. }
rewrite Hc. simpl. eexists. split; [reflexivity |]. simpl. auto 6.
Qed.

(** C4, amended. [moveTo], [lineTo], [circle] and [text] pass their
  coordinates on translated by the left and the top of the box, and so
  does [lineStroke] for every point when the style draws a stroke (it
  issues nothing otherwise); [setBackground] passes the corners of the
  rectangle from (0, 0) to (width, height) on as they are. *)
Theorem passthroughs_translate d x y radius body points style
  width height color r :
let left := chart.Left (Box d) in
let top := chart.Top (Box d) in
moveTo d x y r = r ++ [MoveTo (add x left) (add y top)] /\
lineTo d x y r = r ++ [LineTo (add x left) (add y top)] /\
circle d radius x y r = r ++ [Circle radius (add x left) (add y top)] /\
text d body x y r = r ++ [Text body (add x left) (add y top)] /\
(ShouldDrawStroke (LineStyle_Style style) = false ->
   lineStroke d points style r = r) /\
(ShouldDrawStroke (LineStyle_Style style) = true ->
   exists calls,
     lineStroke d points style r =
       r ++ [WriteDrawingOptionsToRenderer
               (GetStrokeOptions (LineStyle_Style style))]
         ++ calls ++ [Stroke] /\
     length calls = length points /\
     forall (k : nat) (point : Point), points !! k = Some point ->
       calls !! k =
         Some ((if Nat.eqb k 0 then MoveTo else LineTo)
                 (add (X point) left) (add (Y point) top))) /\
setBackground d width height color r =
  r ++ [WriteToRenderer
          {| chart.FillColor := color; chart.FontColor := Color_zero;
             chart.FontSize := Float64_zero; chart.Font := Font_nil |};
        MoveTo 0 0; LineTo width 0; LineTo width height;
        LineTo 0 height; LineTo 0 0; FillStroke].
Proof.
intros left top.
split; [reflexivity |]. split; [reflexivity |].
split; [reflexivity |]. split; [reflexivity |].
split; [| split; [| reflexivity]].
- intros Hs. unfold lineStroke. rewrite Hs. reflexivity.
- intros Hs. unfold lineStroke. rewrite Hs. simpl.
  rewrite lineStroke_loop_calls.
  match goal with |- context [imap ?f points] => exists (imap f points) end.
  split.
  + rewrite <- !app_assoc. reflexivity.
  + split; [apply length_imap |].
    intros k point Hk. rewrite list_lookup_imap, Hk. reflexivity.
Qed.

End DrawFacts.
End draw_facts.

(* ===================================================================== *)
(** ** Properties of the bar chart *)
(* ===================================================================== *)

Module bar_chart_facts.
Section BarChartFacts.
Context `{F : Foreign} `{C : !bar_chart.Collaborators}.
Import GoInt bar_chart.

(** *** The width of a bar *)

Lemma margin_cases width :
(margin width = 2 /\ barMargin width = 2) \/
(margin width = 5 /\ barMargin width = 3) \/
(margin width = 10 /\ barMargin width = 5).
Proof.
unfold margin, barMargin.
destruct (width <? 20); [auto |]. destruct (width <? 50); auto.
Qed.

Lemma quot_nonpos_of_neg N n : N < 0 -> 0 < n -> Z.quot N n <= 0.
Proof.
intros HN Hn.
assert (H : 0 <= Z.quot (- N) n) by (apply Z.quot_pos; lia).
rewrite Z.quot_opp_l in H by lia. lia.
Qed.

Lemma quot_bounds N n : 0 < n -> Z.abs (Z.quot N n) <= Z.abs N.
Proof.
intros Hn. destruct (Z.le_gt_cases 0 N) as [HN | HN].
- rewrite Z.quot_div_nonneg by lia.
  assert (0 <= N / n) by (apply Z.div_pos; lia).
  assert (N / n <= N) by (apply Z.div_le_upper_bound; nia).
  lia.
- assert (H : Z.quot (- N) n = - Z.quot N n) by (apply Z.quot_opp_l; lia).
  rewrite Z.quot_div_nonneg in H by lia.
  assert (0 <= - N / n) by (apply Z.div_pos; lia).
  assert (- N / n <= - N) by (apply Z.div_le_upper_bound; nia).
  lia.
Qed.

(** C1, amended. For a series count between 1 and 2^32 and a slot width
  of at most 2^62 in absolute value (so that nothing wraps around),
  [barWidth] is the quotient of width - 2 margin - barMargin (n - 1)
  by n truncated toward zero; it is the floor of the quotient when the
  dividend is not negative; and when it is positive the bars, their
  gaps and the two margins fit into the width. *)
Theorem barWidth_truncates_and_packs (width n : Z) :
1 <= n <= 2 ^ 32 -> - 2 ^ 62 <= width <= 2 ^ 62 ->
let N := width - 2 * margin width - barMargin width * (n - 1) in
barWidth width n = Some (Z.quot N n) /\
(0 <= N -> Z.quot N n = N / n) /\
(0 < Z.quot N n ->
   Z.quot N n * n + barMargin width * (n - 1) + 2 * margin width <= width).
Proof.
intros Hn Hw N.
assert (Hb : Z.abs N <= 2 ^ 62 + 20 + 5 * 2 ^ 32).
{ subst N. destruct (margin_cases width) as [[-> ->] | [[-> ->] | [-> ->]]]; lia. }
split; [| split].
- unfold barWidth.
  rewrite (mul_exact 2) by
    (unfold in_int, min_int, max_int;
     destruct (margin_cases width) as [[-> _] | [[-> _] | [-> _]]]; lia).
  rewrite (sub_exact width) by
    (unfold in_int, min_int, max_int;
     destruct (margin_cases width) as [[-> _] | [[-> _] | [-> _]]]; lia).
  rewrite (sub_exact n) by (unfold in_int, min_int, max_int; lia).
  rewrite (mul_exact (barMargin width)) by
    (unfold in_int, min_int, max_int;
     destruct (margin_cases width) as [[_ ->] | [[_ ->] | [_ ->]]]; lia).
  rewrite sub_exact by
    (unfold in_int, min_int, max_int; fold N; lia).
  fold N. rewrite quo_nonzero by lia.
  rewrite wrap_exact; [reflexivity |].
  pose proof (quot_bounds N n ltac:(lia)).
  unfold in_int, min_int, max_int. lia.
- intros HN. apply Z.quot_div_nonneg; lia.
- intros Hq.
  assert (HN : 0 <= N).
  { destruct (Z.le_gt_cases 0 N) as [| HN]; [assumption |].
    pose proof (quot_nonpos_of_neg N n HN ltac:(lia)). lia. }
  rewrite Z.quot_div_nonneg by lia.
  pose proof (Z.mul_div_le N n ltac:(lia)). subst N. lia.
Qed.

(** *** The order of the calls *)

Lemma items_loop_calls b result seriesNames vm vbm vbw H index series yRange
  seriesColor divideValues j items st :
exists ext,
  item_calls (items_loop b result seriesNames vm vbm vbw H index series
                yRange seriesColor divideValues j items st)
    = it_trace st ++ ext /\
  Forall (fun c => is_bar_call c = true) ext.
Proof.
revert j st. induction items as [| item rest IH]; intros j st.
- exists []. simpl. rewrite app_nil_r. split; [reflexivity | constructor].
- simpl.
  destruct (Z.of_nat j >=? divideCount (render_xRange b result)); [apply IH |].
  destruct (divideValues !! j) as [x |].
  + destruct (negb (Show (Label series)));
      match goal with
      | |- context [items_loop _ _ _ _ _ _ _ _ _ _ _ _ (S j) rest ?st'] =>
          destruct (IH (S j) st') as (ext & -> & Hext)
      end;
      simpl; rewrite <- app_assoc; eexists; (split; [reflexivity |]);
      simpl; repeat constructor; assumption.
  + exists []. simpl. rewrite app_nil_r. split; [reflexivity | constructor].
Qed.

Lemma series_body_calls b result seriesNames vm vbm vbw H index series st :
exists ext,
  loop_calls (series_body b result seriesNames vm vbm vbw H index series st)
    = trace st ++ ext /\
  Forall (fun c => is_bar_call c = true) ext.
Proof.
unfold series_body.
match goal with
| |- context [items_loop ?a1 ?a2 ?a3 ?a4 ?a5 ?a6 ?a7 ?a8 ?a9 ?a10 ?a11 ?a12 ?a13 ?a14 ?a15] =>
    destruct (items_loop_calls a1 a2 a3 a4 a5 a6 a7 a8 a9 a10 a11 a12 a13 a14 a15)
      as (ext & Hc & Hext);
    destruct (items_loop a1 a2 a3 a4 a5 a6 a7 a8 a9 a10 a11 a12 a13 a14 a15)
end; simpl in *; exists ext; auto.
Qed.

Lemma series_loop_calls b result seriesNames vm vbm vbw H index rest st :
exists ext,
  loop_calls (series_loop b result seriesNames vm vbm vbw H index rest st)
    = trace st ++ ext /\
  Forall (fun c => is_bar_call c = true) ext.
Proof.
revert index st. induction rest as [| series tl IH]; intros index st.
- exists []. simpl. rewrite app_nil_r. split; [reflexivity | constructor].
- simpl.
  destruct (series_body_calls b result seriesNames vm vbm vbw H index series st)
    as (ext & Hc & Hext).
  destruct (series_body b result seriesNames vm vbm vbw H index series st)
    as [st' | msg t]; simpl in Hc.
  + destruct (IH (S index) st') as (ext' & -> & Hext').
    rewrite Hc, <- app_assoc. exists (ext ++ ext').
    split; [reflexivity | apply Forall_app; auto].
  + simpl. exists ext. auto.
Qed.

Lemma render_series_calls b result seriesList :
Forall (fun c => is_bar_call c = true)
       (loop_calls (render_series b result seriesList)).
Proof.
unfold render_series.
destruct (barWidth _ _) as [bw |]; [| constructor].
match goal with
| |- context [series_loop ?a1 ?a2 ?a3 ?a4 ?a5 ?a6 ?a7 ?a8 ?a9 ?a10] =>
    destruct (series_loop_calls a1 a2 a3 a4 a5 a6 a7 a8 a9 a10)
      as (ext & -> & Hext)
end.
assumption.
Qed.

Lemma flush_labels_calls labels t :
exists ext,
  flush_labels labels t = t ++ ext /\
  Forall (fun c => is_label_call c = true) ext.
Proof.
unfold flush_labels. revert t.
induction labels as [| l rest IH]; intros t; simpl.
- exists []. rewrite app_nil_r. split; [reflexivity | constructor].
- destruct (IH (t ++ [OverrideTextStyle (lbl_Style l);
                      Text (lbl_Text l) (lbl_X l) (lbl_Y l)]))
    as (ext & -> & Hext).
  rewrite <- app_assoc. eexists. split; [reflexivity |].
  simpl. repeat constructor; assumption.
Qed.

Lemma overlay_calls_only (cs : list OverlayCall) :
Forall (fun c => is_overlay_call c = true) (map Overlay cs).
Proof. induction cs; simpl; constructor; auto. Qed.

Lemma doRender_painters_calls sp mps mls t :
exists ext,
  fst (doRender [markPointPainter sp mps; markLinePainter sp mls] t)
    = t ++ ext /\
  Forall (fun c => is_overlay_call c = true) ext.
Proof.
simpl. unfold markPointPainter, markLinePainter.
destruct (markPointPainter_Render sp mps t) as [cs [e |]]; simpl.
- exists (map Overlay cs). split; [reflexivity | apply overlay_calls_only].
- destruct (markLinePainter_Render sp mls (t ++ map Overlay cs))
    as [cs' [e |]]; simpl;
    rewrite <- app_assoc; eexists; (split; [reflexivity |]);
    apply Forall_app; split; apply overlay_calls_only.
Qed.

(** A render issues its calls in three phases. *)
Lemma render_phases b result seriesList :
exists bars labels overlays,
  fst (render b result seriesList) = bars ++ labels ++ overlays /\
  Forall (fun c => is_bar_call c = true) bars /\
  Forall (fun c => is_label_call c = true) labels /\
  Forall (fun c => is_overlay_call c = true) overlays.
Proof.
unfold render.
pose proof (render_series_calls b result seriesList) as Hbars.
destruct (render_series b result seriesList) as [st | msg t]; simpl in Hbars.
- destruct (flush_labels_calls (labelRenderOptions st) (trace st))
    as (labels & -> & Hlabels).
  match goal with
  | |- context [doRender ?rs ?t] =>
      destruct (doRender_painters_calls (seriesPainter result)
                  (markPointOpts st) (markLineOpts st) t)
        as (overlays & Ho & Hoverlays);
      destruct (doRender rs t) as [t' [e |]]
  end; simpl in Ho; subst; simpl;
    exists (trace st), labels, overlays; rewrite <- app_assoc; auto.
- exists t, [], []. simpl. rewrite app_nil_r. auto.
Qed.

(** C3. In every render, whatever the series and their labels, and
  also when the render panics on the way, a text call of a deferred
  label comes strictly after every rectangle call of a bar. *)
Theorem labels_after_rects b result seriesList
  (i k : nat) (body : string) (x y : Z) (bx : chart.Box) :
fst (render b result seriesList) !! i = Some (Text body x y) ->
fst (render b result seriesList) !! k = Some (Rect bx) ->
(k < i)%nat.
Proof.
destruct (render_phases b result seriesList)
  as (bars & labels & overlays & -> & Hb & Hl & Ho).
unfold Trace in *. intros Hi Hk.
assert (Hk' : (k < length bars)%nat).
{ destruct (Nat.lt_ge_cases k (length bars)) as [| Hge]; [assumption |].
  rewrite lookup_app_r in Hk by assumption.
  apply lookup_app_Some in Hk as [Hk | [_ Hk]].
  - apply (Forall_lookup_1 _ _ _ _ Hl) in Hk. discriminate.
  - apply (Forall_lookup_1 _ _ _ _ Ho) in Hk. discriminate. }
assert (Hi' : (length bars <= i)%nat).
{ destruct (Nat.lt_ge_cases i (length bars)) as [Hlt |]; [| assumption].
  rewrite lookup_app_l in Hi by assumption.
  apply (Forall_lookup_1 _ _ _ _ Hb) in Hi. discriminate. }
lia.
Qed.

(** *** The points of the mark point overlay *)

Lemma bar_x_formula vm vbm vbw index dv :
bar_x vm vbm vbw index dv =
add (add dv vm) (mul (Z.of_nat index) (add vbw vbm)).
Proof.
unfold bar_x. destruct index as [| n]; simpl; [| reflexivity].
unfold mul. rewrite Z.mul_0_l, (wrap_exact 0).
- unfold add at 1 3. symmetry. apply add_0_r_wrapped.
- unfold in_int, min_int, max_int. lia.
Qed.

Section ItemsLoop.
Variables (b : barChart) (result : defaultRenderResult).
Variable seriesNames : list string.
Variables vm vbm vbw H : Z.
Variables (index : nat) (series : Series).
Variables (yRange : AxisRange) (seriesColor : Color).
Variable dvs : list Z.

Let loop := items_loop b result seriesNames vm vbm vbw H index series
            yRange seriesColor dvs.
Let dc := divideCount (render_xRange b result).

Lemma items_loop_done items j st :
dc <= Z.of_nat (length dvs) -> exists st', loop j items st = Done st'.
Proof.
intros Hlen. revert j st.
induction items as [| item rest IH]; intros j st; [eexists; reflexivity |].
subst loop dc. simpl.
destruct (Z.of_nat j >=? divideCount (render_xRange b result)) eqn:Hge;
  [apply IH |].
rewrite Z.geb_leb, Z.leb_gt in Hge.
destruct (lookup_lt_is_Some_2 dvs j ltac:(lia)) as [x ->].
destruct (negb (Show (Label series))); apply IH.
Qed.

Lemma items_loop_points items : forall j st st',
loop j items st = Done st' ->
length (it_points st') = length (it_points st) /\
(exists ext, it_trace st' = it_trace st ++ ext) /\
(forall m : nat, (m < j)%nat \/ dc <= Z.of_nat m ->
   it_points st' !! m = it_points st !! m) /\
(forall (k : nat) (item : SeriesData),
   items !! k = Some item -> Z.of_nat (j + k) < dc ->
   (j + k < length (it_points st))%nat ->
   exists dv : Z,
     dvs !! (j + k)%nat = Some dv /\
     let x := bar_x vm vbm vbw index dv in
     let top := sub H (Float64_to_int (getHeight yRange (Value item))) in
     In (Rect {| chart.Top := top;
                 chart.Left := x;
                 chart.Right := add x vbw;
                 chart.Bottom := sub H 1 |}) (it_trace st') /\
     it_points st' !! (j + k)%nat =
       Some {| X := add x (shr vbw 1); Y := top |}).
Proof.
induction items as [| item rest IH]; intros j st st' Hrun.
- subst loop. simpl in Hrun. injection Hrun as <-.
  split; [reflexivity |]. split; [exists []; symmetry; apply app_nil_r |].
  split; [reflexivity |]. intros k item Hk. discriminate.
- subst loop dc. simpl in Hrun.
  destruct (Z.of_nat j >=? divideCount (render_xRange b result)) eqn:Hge.
  + apply Z.geb_le in Hge.
    destruct (IH _ _ _ Hrun) as (Hlen & Hext & Hkeep & Hbars).
    split; [assumption |]. split; [assumption |]. split.
    * intros m [Hm | Hm]; apply Hkeep; [left; lia | right; assumption].
    * intros [| k] it Hk Hlt Hin; [lia |].
      replace (j + S k)%nat with (S j + k)%nat in * by lia.
      apply Hbars; assumption.
  + rewrite Z.geb_leb, Z.leb_gt in Hge.
    destruct (dvs !! j) as [dv |] eqn:Hdv; [| discriminate].
    set (x := bar_x vm vbm vbw index dv) in *.
    set (top := sub H (Float64_to_int (getHeight yRange (Value item)))) in *.
    assert (Hstep : exists st1,
               items_loop b result seriesNames vm vbm vbw H index series
                 yRange seriesColor dvs (S j) rest st1 = Done st' /\
               it_points st1 =
                 <[j := {| X := add x (shr vbw 1); Y := top |}]>
                   (<[j := {| X := add x (shr vbw 1); Y := top |}]>
                      (it_points st)) /\
               exists fc, it_trace st1 =
                 it_trace st ++
                   [OverrideDrawingStyle (fill_style fc);
                    Rect {| chart.Top := top;
                            chart.Left := x;
                            chart.Right := add x vbw;
                            chart.Bottom := sub H 1 |}]).
    { destruct (negb (Show (Label series)));
        eexists; (split; [exact Hrun |]); simpl; eauto. }
    clear Hrun. destruct Hstep as (st1 & Hrun & Hpts & fc & Htr).
    destruct (IH _ _ _ Hrun) as (Hlen & (ext & Hext) & Hkeep & Hbars).
    rewrite Hpts in Hlen, Hkeep. rewrite !length_insert in Hlen.
    split; [assumption |]. split.
    { rewrite Hext, Htr, <- app_assoc. eexists. reflexivity. }
    split.
    * intros m Hm. rewrite Hkeep by (destruct Hm; [left; lia | right; assumption]).
      rewrite !list_lookup_insert_ne by (destruct Hm; lia). reflexivity.
    * intros [| k] it Hk Hlt Hin.
      -- simpl in Hk. injection Hk as <-.
         rewrite Nat.add_0_r in *. exists dv. split; [assumption |].
         fold x top. split.
         ++ rewrite Hext, Htr. apply in_or_app. left.
            apply in_or_app. right. right. left. reflexivity.
         ++ rewrite Hkeep by (left; lia).
            apply list_lookup_insert_eq. rewrite length_insert. assumption.
      -- replace (j + S k)%nat with (S j + k)%nat in * by lia.
         apply Hbars; [assumption | assumption |].
         rewrite Hpts, !length_insert. assumption.
Qed.
End ItemsLoop.

Lemma registered_later b result vm vbm vbw H index series mp tr ext :
registered b result vm vbm vbw H index series mp tr ->
registered b result vm vbm vbw H index series mp (tr ++ ext).
Proof.
intros (Hs & Hlen & Hzero & Hbars). repeat split; try assumption.
intros j item Hj Hlt. destruct (Hbars j item Hj Hlt) as (dv & Hdv & Hin & Hpt).
exists dv. repeat split; try assumption. apply in_or_app. left. exact Hin.
Qed.

Lemma series_body_registered b result names vm vbm vbw H index series st st' :
series_body b result names vm vbm vbw H index series st = Done st' ->
(exists ext, trace st' = trace st ++ ext) /\
exists mp,
  markPointOpts st' = markPointOpts st ++ [mp] /\
  registered b result vm vbm vbw H index series mp (trace st').
Proof.
unfold series_body.
match goal with
| |- context [items_loop ?a1 ?a2 ?a3 ?a4 ?a5 ?a6 ?a7 ?a8 ?a9 ?a10 ?a11 ?a12 ?a13 ?a14 ?a15] =>
    destruct (items_loop a1 a2 a3 a4 a5 a6 a7 a8 a9 a10 a11 a12 a13 a14 a15)
      as [it | msg t] eqn:Hit; [| discriminate]
end.
intros Hdone. injection Hdone as <-. simpl.
apply items_loop_points in Hit as (Hlen & Hext & Hkeep & Hbars).
simpl in Hlen, Hext, Hkeep, Hbars. rewrite length_replicate in Hlen, Hbars.
split; [exact Hext |]. eexists. split; [reflexivity |].
split; [reflexivity |]. simpl. split; [exact Hlen |]. split.
- intros j Hj Hlt. rewrite Hkeep by (right; exact Hj).
  apply lookup_replicate_2. exact Hlt.
- intros j item Hj Hlt. apply (Hbars j item Hj Hlt).
  apply lookup_lt_Some in Hj. exact Hj.
Qed.

Lemma series_loop_registered b result names vm vbm vbw H rest :
forall index st st',
  series_loop b result names vm vbm vbw H index rest st = Done st' ->
  (exists ext, trace st' = trace st ++ ext) /\
  length (markPointOpts st') = (length (markPointOpts st) + length rest)%nat /\
  (forall m : nat, (m < length (markPointOpts st))%nat ->
     markPointOpts st' !! m = markPointOpts st !! m) /\
  (forall (i : nat) (series : Series), rest !! i = Some series ->
     exists mp,
       markPointOpts st' !! (length (markPointOpts st) + i)%nat = Some mp /\
       registered b result vm vbm vbw H (index + i) series mp (trace st')).
Proof.
induction rest as [| series tl IH]; intros index st st' Hrun.
- simpl in Hrun. injection Hrun as <-.
  split; [exists []; symmetry; apply app_nil_r |].
  split; [simpl; lia |]. split; [reflexivity |].
  intros i s Hi. discriminate.
- simpl in Hrun.
  destruct (series_body b result names vm vbm vbw H index series st)
    as [st1 | msg t] eqn:Hbody; [| discriminate].
  apply series_body_registered in Hbody
    as ((ext1 & Htr1) & mp & Hmps & Hreg).
  destruct (IH _ _ _ Hrun) as ((ext & Htr) & Hlen & Hkeep & Hall).
  rewrite Hmps in Hlen, Hkeep, Hall. rewrite length_app in Hlen, Hkeep, Hall.
  simpl in Hlen, Hkeep, Hall.
  split; [rewrite Htr, Htr1, <- app_assoc; eexists; reflexivity |].
  split; [simpl; lia |]. split.
  + intros m Hm. rewrite Hkeep by lia. apply lookup_app_l. exact Hm.
  + intros [| i] s Hi.
    * simpl in Hi. injection Hi as <-. exists mp. split.
      -- rewrite Nat.add_0_r, Hkeep by lia.
         apply list_lookup_middle. reflexivity.
      -- rewrite Nat.add_0_r, Htr. apply registered_later. exact Hreg.
    * simpl in Hi. destruct (Hall i s Hi) as (mp' & Hmp' & Hreg').
      exists mp'. split.
      -- rewrite <- Hmp'. f_equal. lia.
      -- replace (index + S i)%nat with (S index + i)%nat by lia. exact Hreg'.
Qed.

Lemma series_body_done b result names vm vbm vbw H index series st :
divideCount (render_xRange b result)
  <= Z.of_nat (length (AutoDivide (render_xRange b result))) ->
exists st', series_body b result names vm vbm vbw H index series st = Done st'.
Proof.
intros Hlen. unfold series_body.
match goal with
| |- context [items_loop ?a1 ?a2 ?a3 ?a4 ?a5 ?a6 ?a7 ?a8 ?a9 ?a10 ?a11 ?a12 ?a13 ?a14 ?a15] =>
    destruct (items_loop_done a1 a2 a3 a4 a5 a6 a7 a8 a9 a10 a11 a12 a14 a13 a15 Hlen)
      as [it ->]
end.
eexists. reflexivity.
Qed.

Lemma series_loop_done b result names vm vbm vbw H rest :
divideCount (render_xRange b result)
  <= Z.of_nat (length (AutoDivide (render_xRange b result))) ->
forall index st,
  exists st', series_loop b result names vm vbm vbw H index rest st = Done st'.
Proof.
intros Hlen. induction rest as [| series tl IH]; intros index st; simpl.
- eexists. reflexivity.
- destruct (series_body_done b result names vm vbm vbw H index series st Hlen)
    as [st1 ->].
  apply IH.
Qed.

(** With at least one series, and enough boundaries from [AutoDivide] for
  the category count, the loop over the series runs to its end. *)
Lemma render_series_done b result seriesList :
seriesList <> [] ->
divideCount (render_xRange b result)
  <= Z.of_nat (length (AutoDivide (render_xRange b result))) ->
exists st bw,
  barWidth (render_width b result) (Z.of_nat (length seriesList)) = Some bw /\
  render_series b result seriesList = Done st /\
  series_loop b result (Names seriesList) (margin (render_width b result))
    (barMargin (render_width b result)) bw
    (Painter_Height (seriesPainter result)) O seriesList
    (mkLoopState [] [] [] []) = Done st.
Proof.
intros Hne Hlen. unfold render_series.
assert (Hn : Z.of_nat (length seriesList) <> 0).
{ destruct seriesList; [contradiction | simpl; lia]. }
unfold barWidth. rewrite (quo_nonzero _ _ Hn).
match goal with
| |- context [series_loop ?a1 ?a2 ?a3 ?a4 ?a5 ?a6 ?a7 ?a8 ?a9 ?a10] =>
    destruct (series_loop_done a1 a2 a3 a4 a5 a6 a7 a9 Hlen a8 a10) as [st Hst]
end.
exists st. eexists. split; [reflexivity |]. split; exact Hst.
Qed.

Lemma render_after_series b result seriesList st :
render_series b result seriesList = Done st ->
exists rest, fst (render b result seriesList) = trace st ++ rest.
Proof.
intros Hst. unfold render. rewrite Hst.
destruct (flush_labels_calls (labelRenderOptions st) (trace st))
  as (labels & -> & _).
match goal with
| |- context [doRender ?rs ?t] =>
    destruct (doRender_painters_calls (seriesPainter result)
                (markPointOpts st) (markLineOpts st) t)
      as (overlays & Ho & _);
    destruct (doRender rs t) as [t' [e |]]
end; simpl in Ho; subst; simpl; rewrite <- app_assoc; eexists; reflexivity.
Qed.

(** C2. With at least one series and enough boundaries for the category
  count, the loop over the series ends, and for the item [j] (before
  the category count) of the series number [i] the rectangle with left
  edge x = boundary + margin + i (barWidth + barMargin) and top =
  height - h has been drawn and the point registered with the mark
  point painter is (x + barWidth / 2, top), the half being the floor,
  whatever the sign of barWidth. *)
Theorem mark_point_is_top_center b result seriesList :
seriesList <> [] ->
divideCount (render_xRange b result)
  <= Z.of_nat (length (AutoDivide (render_xRange b result))) ->
exists st bw,
  render_series b result seriesList = Done st /\
  barWidth (render_width b result) (Z.of_nat (length seriesList)) = Some bw /\
  (exists rest, fst (render b result seriesList) = trace st ++ rest) /\
  forall (i : nat) (series : Series) (j : nat) (item : SeriesData),
    seriesList !! i = Some series ->
    Data series !! j = Some item ->
    Z.of_nat j < divideCount (render_xRange b result) ->
    exists mp dv,
      markPointOpts st !! i = Some mp /\
      AutoDivide (render_xRange b result) !! j = Some dv /\
      let width := render_width b result in
      let barMaxHeight := Painter_Height (seriesPainter result) in
      let x := add (add dv (margin width))
                   (mul (Z.of_nat i) (add bw (barMargin width))) in
      let h := Float64_to_int
                 (getHeight
                    (default AxisRange_zero
                       (axisRanges result !! AxisIndex series))
                    (Value item)) in
      let top := sub barMaxHeight h in
      In (Rect {| chart.Top := top;
                  chart.Left := x;
                  chart.Right := add x bw;
                  chart.Bottom := sub barMaxHeight 1 |}) (trace st) /\
      mp_Points mp !! j = Some {| X := add x (bw / 2); Y := top |}.
Proof.
intros Hne Hlen.
destruct (render_series_done b result seriesList Hne Hlen)
  as (st & bw & Hbw & Hst & Hloop).
exists st, bw. split; [exact Hst |]. split; [exact Hbw |].
split; [apply render_after_series; exact Hst |].
intros i series j item Hi Hj Hlt.
apply series_loop_registered in Hloop as (_ & _ & _ & Hall).
destruct (Hall i series Hi) as (mp & Hmp & _ & _ & _ & Hbars).
destruct (Hbars j item Hj Hlt) as (dv & Hdv & Hin & Hpt).
exists mp, dv. split; [exact Hmp |]. split; [exact Hdv |].
simpl in Hin, Hpt. rewrite bar_x_formula, shr_1_floor in *.
split; assumption.
Qed.

(** C8. With at least one series and enough boundaries for the category
  count, every series has its option registered with the mark point
  painter, with one point per data item, a series longer than the
  category count included; and the points at the indices from the
  category count on are the zero point. *)
Theorem long_series_points_stay_zero b result seriesList :
seriesList <> [] ->
divideCount (render_xRange b result)
  <= Z.of_nat (length (AutoDivide (render_xRange b result))) ->
exists st,
  render_series b result seriesList = Done st /\
  length (markPointOpts st) = length seriesList /\
  forall (i : nat) (series : Series),
    seriesList !! i = Some series ->
    exists mp,
      markPointOpts st !! i = Some mp /\
      mp_Series mp = series /\
      length (mp_Points mp) = length (Data series) /\
      forall j : nat,
        divideCount (render_xRange b result) <= Z.of_nat j ->
        (j < length (Data series))%nat ->
        mp_Points mp !! j = Some {| X := 0; Y := 0 |}.
Proof.
intros Hne Hlen.
destruct (render_series_done b result seriesList Hne Hlen)
  as (st & bw & Hbw & Hst & Hloop).
exists st. split; [exact Hst |].
apply series_loop_registered in Hloop as (_ & Hcount & _ & Hall).
split; [exact Hcount |].
intros i series Hi.
destruct (Hall i series Hi) as (mp & Hmp & Hs & Hl & Hzero & _).
exists mp. auto.
Qed.

(** *** How a render ends *)

(** With at least one series and enough boundaries for the category
  count, [render] returns, and it returns what [doRender] says: its
  error, unchanged and with the zero box, or the box of the painter. *)
Lemma render_returns b result seriesList :
seriesList <> [] ->
divideCount (render_xRange b result)
  <= Z.of_nat (length (AutoDivide (render_xRange b result))) ->
exists st,
  render_series b result seriesList = Done st /\
  let overlay :=
    doRender [markPointPainter (seriesPainter result) (markPointOpts st);
              markLinePainter (seriesPainter result) (markLineOpts st)]
             (flush_labels (labelRenderOptions st) (trace st)) in
  render b result seriesList =
    (fst overlay,
     match snd overlay with
     | Some e => Returned chart.BoxZero (Some e)
     | None => Returned (box (p b)) None
     end).
Proof.
intros Hne Hlen.
destruct (render_series_done b result seriesList Hne Hlen)
  as (st & bw & _ & Hst & _).
exists st. split; [exact Hst |].
unfold render. rewrite Hst.
destruct (doRender _ _) as [t [e |]]; reflexivity.
Qed.

(** C7, the failing case. Without any series [render] does not return:
  the division by the series count panics before a call is issued, and
  no overlay painter has been invoked. *)
Theorem render_without_series_panics b result :
render b result [] = ([], Panicked "integer divide by zero").
Proof. reflexivity. Qed.

End BarChartFacts.
End bar_chart_facts.

(* ===================================================================== *)
(** ** The properties on concrete inputs *)
(* ===================================================================== *)

Module examples.
Import GoInt demo.

#[local] Existing Instance foreign.
#[local] Existing Instance backend.

(** *** [draw.go] *)

Lemma Top_of_root_is_nil_witness :
  draw.parent (heap_chain 0%nat) = None /\ draw.Top heap_chain 0%nat = None.
Proof.
  split; [reflexivity |].
  apply (draw_facts.Top_of_root_is_nil heap_chain 0%nat). reflexivity.
Defined.

Lemma heap_cycle_endless : draw.endless heap_cycle 0%nat.
Proof. intros k a _. destruct a; discriminate. Qed.

(** From the great-grandchild 3 the root 0 is three steps up, from the
    grandchild 2 two steps; on the cycle the loop uses its 50 hops. *)
Lemma Top_bounded_walk_witness :
  draw.Top heap_chain 3%nat = Some 0%nat /\
  draw.Top heap_chain 2%nat = Some 0%nat /\
  exists t r, draw.parent (heap_cycle 0%nat) = Some t /\
              draw.Top_loop heap_cycle 50 t = (r, 50%nat) /\
              draw.Top heap_cycle 0%nat = Some r /\
              draw.chain heap_cycle 0%nat 51 r.
Proof.
  split; [| split].
  - destruct (draw_facts.Top_bounded_walk heap_chain 3%nat) as (_ & Hroot & _).
    apply (Hroot 3%nat 0%nat); [lia | | reflexivity].
    repeat (econstructor; [reflexivity |]). constructor.
  - destruct (draw_facts.Top_bounded_walk heap_chain 2%nat) as (_ & Hroot & _).
    apply (Hroot 2%nat 0%nat); [lia | | reflexivity].
    repeat (econstructor; [reflexivity |]). constructor.
  - destruct (draw_facts.Top_bounded_walk heap_cycle 0%nat) as (_ & _ & Hcyc).
    apply Hcyc. exact heap_cycle_endless.
Defined.

Lemma NewDraw_from_parent_bounds_witness :
  exists d,
    draw.NewDraw (B := backend) heap_chain
      (draw.mkDrawOption "png" (Some 1%nat) 100 50) [] = Ok d /\
    draw.Box d = chart.mkBox 20 10 110 70 /\
    draw.Render d = 7%nat.
Proof.
  destruct (draw_facts.NewDraw_from_parent_bounds (B := backend)
              heap_chain "png" 1%nat 100 50)
    as (d & Hd & Hbox & Hr & _); [lia | lia |].
  exists d. split; [exact Hd |]. split; [| exact Hr].
  rewrite Hbox. reflexivity.
Defined.

Lemma NewDraw_zero_size_keeps_bounds_witness :
  exists d,
    draw.NewDraw (B := backend) heap_chain
      (draw.mkDrawOption "svg" (Some 1%nat) 0 50) [] = Ok d /\
    draw.Box d = chart.mkBox 20 10 590 380.
Proof.
  destruct (draw_facts.NewDraw_zero_size_keeps_bounds (B := backend)
              heap_chain "svg" 1%nat 0 50)
    as (d & Hd & Hbox & _); [left; reflexivity |].
  exists d. split; [exact Hd |]. rewrite Hbox. reflexivity.
Defined.

Lemma passthroughs_translate_witness :
  draw.ShouldDrawStroke (draw.LineStyle_Style true) = true /\
  exists calls,
    draw.lineStroke (B := backend) (heap_chain 1%nat) stroke_points true [] =
      [] ++ [draw.WriteDrawingOptionsToRenderer
               (draw.GetStrokeOptions (draw.LineStyle_Style true))]
         ++ calls ++ [draw.Stroke] /\
    calls !! 0%nat = Some (draw.MoveTo 11 22) /\
    calls !! 1%nat = Some (draw.LineTo 13 24).
Proof.
  split; [reflexivity |].
  destruct (draw_facts.passthroughs_translate (B := backend)
              (heap_chain 1%nat) 0 0 (0 : @Float64 foreign) ""
              stroke_points (true : @LineStyle foreign) 0 0
              (0 : @Color foreign) [])
    as (_ & _ & _ & _ & _ & Hstroke & _).
  destruct (Hstroke eq_refl) as (calls & Hcalls & _ & Hall).
  exists calls. split; [exact Hcalls |]. split.
  - exact (Hall 0%nat (mkPoint 1 2) eq_refl).
  - exact (Hall 1%nat (mkPoint 3 4) eq_refl).
Defined.

(** C4, the counterexample. In the box 1, whose left is 10 and whose top
    is 20, [setBackground] starts its path at (0, 0) and not at the
    translated corner (10, 20). *)
Lemma setBackground_not_translated :
  draw.setBackground (heap_chain 1%nat) 300 150 (5 : @Color foreign) []
    !! 1%nat = Some (draw.MoveTo 0 0) /\
  draw.spec_fillBackground (heap_chain 1%nat) 300 150 (5 : @Color foreign) []
    !! 1%nat = Some (draw.MoveTo 10 20) /\
  draw.setBackground (heap_chain 1%nat) 300 150 (5 : @Color foreign) []
    <> draw.spec_fillBackground (heap_chain 1%nat) 300 150
         (5 : @Color foreign) [].
Proof.
  split; [reflexivity |]. split; [reflexivity |].
  vm_compute. discriminate.
Qed.

(** *** The bar chart *)

Lemma barWidth_truncates_and_packs_witness :
  bar_chart.barWidth 100 2 = Some 37 /\
  37 * 2 + bar_chart.barMargin 100 * (2 - 1) + 2 * bar_chart.margin 100 <= 100.
Proof.
  destruct (bar_chart_facts.barWidth_truncates_and_packs 100 2)
    as (Hbw & _ & Hpack); [lia | lia |].
  split; [exact Hbw |]. apply Hpack. reflexivity.
Defined.

(** C1, the counterexample. Five series in a slot of 10 pixels: the
    dividend is 10 - 4 - 8 = -2, the code computes 0 and the floor of the
    quotient is -1. *)
Lemma barWidth_is_not_the_floor :
  bar_chart.barWidth 10 5 = Some 0 /\
  (10 - 2 * bar_chart.margin 10 - bar_chart.barMargin 10 * (5 - 1)) / 5 = -1 /\
  bar_chart.barWidth 10 5 <>
    Some ((10 - 2 * bar_chart.margin 10 - bar_chart.barMargin 10 * (5 - 1)) / 5).
Proof.
  split; [reflexivity |]. split; [reflexivity |].
  vm_compute. discriminate.
Qed.

Lemma two_series_fit :
  bar_chart.divideCount (Collaborators := quiet)
    (bar_chart.render_xRange (C := quiet) chart3 result3)
  <= Z.of_nat (length (bar_chart.AutoDivide (Collaborators := quiet)
                         (bar_chart.render_xRange (C := quiet) chart3 result3))).
Proof. vm_compute. discriminate. Qed.

Lemma mark_point_is_top_center_witness :
  exists st mp,
    bar_chart.render_series (C := quiet) chart3 result3 two_series
      = bar_chart.Done st /\
    bar_chart.markPointOpts st !! 1%nat = Some mp /\
    In (bar_chart.Rect (chart.mkBox 147 252 289 149)) (bar_chart.trace st) /\
    bar_chart.mp_Points mp !! 2%nat = Some (mkPoint 270 147).
Proof.
  destruct (bar_chart_facts.mark_point_is_top_center (C := quiet)
              chart3 result3 two_series)
    as (st & bw & Hst & Hbw & _ & Hall);
    [discriminate | exact two_series_fit |].
  destruct (Hall 1%nat (series 1 false [1; 2; 3; 4]) 2%nat (item 3))
    as (mp & dv & Hmp & Hdv & Hin & Hpt);
    [reflexivity | reflexivity | reflexivity |].
  vm_compute in Hbw. injection Hbw as <-.
  vm_compute in Hdv. injection Hdv as <-.
  exists st, mp. split; [exact Hst |]. split; [exact Hmp |].
  split; [exact Hin | exact Hpt].
Defined.

Lemma long_series_points_stay_zero_witness :
  exists st mp,
    bar_chart.render_series (C := quiet) chart3 result3 two_series
      = bar_chart.Done st /\
    bar_chart.markPointOpts st !! 1%nat = Some mp /\
    length (bar_chart.mp_Points mp) = 4%nat /\
    bar_chart.mp_Points mp !! 3%nat = Some (mkPoint 0 0).
Proof.
  destruct (bar_chart_facts.long_series_points_stay_zero (C := quiet)
              chart3 result3 two_series)
    as (st & Hst & _ & Hall); [discriminate | exact two_series_fit |].
  destruct (Hall 1%nat (series 1 false [1; 2; 3; 4]) eq_refl)
    as (mp & Hmp & _ & Hlen & Hzero).
  exists st, mp. split; [exact Hst |]. split; [exact Hmp |].
  split; [exact Hlen |]. apply Hzero; [vm_compute; discriminate | simpl; lia].
Defined.

Lemma labels_after_rects_witness :
  fst (bar_chart.render (C := quiet) chart3 result3 two_series) !! 13%nat
    = Some (bar_chart.Text "v" 25 135) /\
  fst (bar_chart.render (C := quiet) chart3 result3 two_series) !! 11%nat
    = Some (bar_chart.Rect (chart.mkBox 147 252 289 149)) /\
  (11 < 13)%nat.
Proof.
  split; [reflexivity |]. split; [reflexivity |].
  apply (bar_chart_facts.labels_after_rects (C := quiet)
           chart3 result3 two_series 13 11 "v" 25 135
           (chart.mkBox 147 252 289 149)); reflexivity.
Defined.

(** With eight series in slots of 9 pixels the bar width is -1 and its
    half by the shift is -1, the floor: the point of the first bar of
    the second series is one pixel left of its left edge 3. *)
Lemma negative_barWidth_point :
  bar_chart.barWidth 9 8 = Some (-1) /\
  match bar_chart.render_series (C := quiet) narrow narrow_result eight_series with
  | bar_chart.Done st =>
      bar_chart.trace st !! 3%nat
        = Some (bar_chart.Rect (chart.mkBox 143 3 2 149)) /\
      option_map bar_chart.mp_Points (bar_chart.markPointOpts st !! 1%nat)
        = Some [mkPoint 2 143]
  | bar_chart.Panic _ _ => False
  end.
Proof.
  split; [reflexivity |]. vm_compute. split; reflexivity.
Qed.

(** An overlay painter that fails makes [render] return its error and
    the zero box; when both succeed the box of the painter is returned. *)
Lemma render_propagates_overlay_error :
  snd (bar_chart.render (C := collaborators false true) chart3 result3 two_series)
    = bar_chart.Returned chart.BoxZero (Some "mark line"%string) /\
  snd (bar_chart.render (C := collaborators true false) chart3 result3 two_series)
    = bar_chart.Returned chart.BoxZero (Some "mark point"%string) /\
  snd (bar_chart.render (C := quiet) chart3 result3 two_series)
    = bar_chart.Returned (chart.mkBox 0 0 300 150) None.
Proof. repeat split; vm_compute; reflexivity. Qed.

End examples.

(* ===================================================================== *)
(** ** More on the Go integers: arithmetic modulo 2^64 *)
(* ===================================================================== *)

Section GoIntModular.
Import GoInt.

Lemma wrap_spec x : exists k, wrap x = x + k * 2 ^ 64.
Proof.
  unfold wrap. exists (- ((x + 2 ^ 63) / 2 ^ 64)).
  pose proof (Z.div_mod (x + 2 ^ 63) (2 ^ 64) ltac:(lia)). lia.
Qed.

Lemma wrap_congr x y q : x = y + q * 2 ^ 64 -> wrap x = wrap y.
Proof.
  intros ->. unfold wrap. f_equal.
  replace (y + q * 2 ^ 64 + 2 ^ 63) with (y + 2 ^ 63 + q * 2 ^ 64) by lia.
  apply Z_mod_plus_full.
Qed.

Lemma add_wrap_l x y : add (wrap x) y = add x y.
Proof.
  unfold add. destruct (wrap_spec x) as [k ->].
  apply (wrap_congr _ _ k). lia.
Qed.

Lemma add_wrap_r x y : add x (wrap y) = add x y.
Proof. rewrite add_comm, add_wrap_l. apply add_comm. Qed.

Lemma sub_wrap_l x y : sub (wrap x) y = sub x y.
Proof.
  unfold sub. destruct (wrap_spec x) as [k ->].
  apply (wrap_congr _ _ k). lia.
Qed.

Lemma add_assoc x y z : add (add x y) z = add x (add y z).
Proof.
  unfold add. destruct (wrap_spec (x + y)) as [k ->].
  destruct (wrap_spec (y + z)) as [k' ->].
  apply (wrap_congr _ _ (k - k')). lia.
Qed.

Lemma sub_sub_add x y z : sub (sub x y) z = sub x (add y z).
Proof.
  unfold sub, add. destruct (wrap_spec (x - y)) as [k ->].
  destruct (wrap_spec (y + z)) as [k' ->].
  apply (wrap_congr _ _ (k + k')). lia.
Qed.

Lemma mul_succ_l i s : mul (i + 1) s = add (mul i s) s.
Proof.
  unfold mul, add. destruct (wrap_spec (i * s)) as [k ->].
  apply (wrap_congr _ _ (- k)). ring.
Qed.

End GoIntModular.

(* ===================================================================== *)
(** ** More properties of [draw.go] *)
(* ===================================================================== *)

Module draw_more.
Section DrawMore.
Context `{F : Foreign} `{B : !draw.Backend}.
Import GoInt draw.

Lemma chain_functional h d k a a' :
  chain h d k a -> chain h d k a' -> a = a'.
Proof.
  intros Hc. revert a'. induction Hc as [d | d t k a Hd Hc IH]; intros a' Hc'.
  - inversion Hc'. reflexivity.
  - inversion Hc' as [| d' t' k' a'' Hd' Hc'']; subst.
    rewrite Hd in Hd'. injection Hd' as <-. apply IH. exact Hc''.
Qed.

Lemma chain_split h d m n r :
  chain h d (m + n) r -> exists a, chain h d m a /\ chain h a n r.
Proof.
  revert d. induction m as [| m IH]; intros d Hc; simpl in Hc.
  - exists d. split; [constructor | exact Hc].
  - inversion Hc as [| d' t k a Hd Hc']; subst.
    destruct (IH t Hc') as (a & Ha & Hr).
    exists a. split; [econstructor; eassumption | exact Hr].
Qed.

(** When the chain goes on for as many steps as the loop may run, the loop
    runs them all. *)
Lemma Top_loop_full h i t a :
  chain h t i a -> Top_loop h i t = (a, i).
Proof.
  revert t. induction i as [| i IH]; intros t Hc.
  - inversion Hc. reflexivity.
  - inversion Hc as [| d' q k a' Hq Hc']; subst.
    simpl. rewrite Hq, (IH q Hc'). reflexivity.
Qed.

Lemma Top_loop_stops h i t :
  parent (h (fst (Top_loop h i t))) = None \/ snd (Top_loop h i t) = i.
Proof.
  revert t. induction i as [| i IH]; intros t; simpl; [right; reflexivity |].
  destruct (parent (h t)) as [q |] eqn:Hq; simpl; [| left; exact Hq].
  specialize (IH q). destruct (Top_loop h i q) as [r n]. simpl in *.
  destruct IH as [IH | IH]; [left; exact IH | right; congruence].
Qed.

(** X1. A root box needs a size: without a parent, a width or a height
    that is not positive makes [NewDraw] fail with its own error, before
    a renderer is made and whatever options were given. *)
Theorem NewDraw_root_needs_size h ty W H opts :
  W <= 0 \/ H <= 0 ->
  NewDraw h (mkDrawOption ty None W H) opts
    = Fail (errors_New "parent and width/height can not be nil").
Proof.
  intros HWH. unfold NewDraw, NewDraw_base. simpl.
  assert (Hc : (W <=? 0) || (H <=? 0) = true).
  { apply orb_true_iff. destruct HWH; [left | right]; apply Z.leb_le; assumption. }
  rewrite Hc. reflexivity.
Qed.

(** X2. A root box with a positive width and height gets the bounds from
    (0, 0) to (width, height) and the renderer made for that size, by the
    PNG backend when the type is "png" and by the SVG backend for any
    other type; when the backend fails, its error is the result and no
    option is applied. *)
Theorem NewDraw_root h ty W H :
  0 < W <= max_int -> 0 < H <= max_int ->
  let fn := if String.eqb ty "png" then chart_PNG else chart_SVG in
  (forall r, fn W H = Ok r ->
     NewDraw h (mkDrawOption ty None W H) [] =
       Ok {| Render := r;
             Box := {| chart.Top := 0; chart.Left := 0;
                       chart.Right := W; chart.Bottom := H |};
             Font := GetDefaultFont;
             parent := None |}) /\
  (forall e opts, fn W H = Fail e ->
     NewDraw h (mkDrawOption ty None W H) opts = Fail e).
Proof.
  intros HW HH fn. unfold NewDraw, NewDraw_base. simpl.
  destruct (Z.leb_spec W 0) as [| _]; [lia |].
  destruct (Z.leb_spec H 0) as [| _]; [lia |].
  destruct (Z.eqb_spec W 0) as [| _]; [lia |].
  destruct (Z.eqb_spec H 0) as [| _]; [lia |].
  simpl. unfold add. rewrite !Z.add_0_r.
  rewrite !wrap_exact by (unfold in_int, min_int, max_int in *; lia).
  fold fn. split.
  - intros r ->. reflexivity.
  - intros e opts ->. reflexivity.
Qed.

Lemma PaddingOption_twice p1 p2 d :
  PaddingOption p2 (fst (PaddingOption p1 d)) = PaddingOption (padding_sum p1 p2) d.
Proof.
  unfold PaddingOption, padding_sum, set_Box. simpl.
  rewrite !add_assoc, !sub_sub_add. reflexivity.
Qed.

(** X3. Paddings add up: two padding options in a row give the same box,
    and the same result of [NewDraw], as the one padding option of their
    sum, in Go's arithmetic; a padding option never fails. *)
Theorem NewDraw_paddings_add_up h opt p1 p2 rest :
  NewDraw h opt (PaddingOption p1 :: PaddingOption p2 :: rest)
    = NewDraw h opt (PaddingOption (padding_sum p1 p2) :: rest) /\
  forall d, snd (PaddingOption p1 d) = None.
Proof.
  split; [| reflexivity].
  unfold NewDraw. destruct (NewDraw_base h opt) as [d | e]; [| reflexivity].
  unfold PaddingOption, padding_sum, set_Box. simpl.
  rewrite !add_assoc, !sub_sub_add. reflexivity.
Qed.

Lemma apply_opts_app before after d :
  apply_opts (before ++ after) d =
  match apply_opts before d with
  | Ok d' => apply_opts after d'
  | Fail e => Fail e
  end.
Proof.
  revert d. induction before as [| o rest IH]; intros d; simpl; [reflexivity |].
  destruct (o d) as [d' [e |]]; [reflexivity | apply IH].
Qed.

(** X4. The first option that fails ends [NewDraw]: when the options
    before it succeed, its error is the result, no box is returned and
    the options after it play no part. *)
Theorem NewDraw_stops_at_failing_option h opt before o after d0 d1 e :
  NewDraw h opt before = Ok d0 ->
  o d0 = (d1, Some e) ->
  NewDraw h opt (before ++ o :: after) = Fail e.
Proof.
  unfold NewDraw. destruct (NewDraw_base h opt) as [d | e']; simpl; [| discriminate].
  intros Hbefore Ho. rewrite apply_opts_app, Hbefore. simpl. rewrite Ho. reflexivity.
Qed.

(** X5. [Top] is nil exactly for a box without parent; otherwise it is an
    ancestor of the box, between 1 and 51 steps up, and it is a root
    unless it is the ancestor 51 steps up. *)
Theorem Top_is_an_ancestor h d :
  (Top h d = None <-> parent (h d) = None) /\
  (forall t, Top h d = Some t ->
     exists k : nat, (1 <= k <= 51)%nat /\ chain h d k t /\
                     (parent (h t) = None \/ k = 51%nat)).
Proof.
  unfold Top. destruct (parent (h d)) as [q |] eqn:Hq.
  - split; [split; discriminate |].
    intros t Ht. injection Ht as <-.
    pose proof (draw_facts.Top_loop_chain h 50 q) as Hc.
    pose proof (draw_facts.Top_loop_hops h 50 q) as Hn.
    pose proof (Top_loop_stops h 50 q) as Hs.
    exists (S (snd (Top_loop h 50 q))). split; [lia |]. split.
    + econstructor; eassumption.
    + destruct Hs as [Hs | Hs]; [left; exact Hs | right; lia].
  - split; [split; reflexivity | discriminate].
Qed.

(** X6. Beyond the cap [Top] is not the root: on a chain that reaches its
    root in more than 51 steps, [Top] is the ancestor 51 steps up, which
    still has a parent. *)
Theorem Top_beyond_cap h d k r :
  chain h d k r -> parent (h r) = None -> (51 < k)%nat ->
  exists a, Top h d = Some a /\ chain h d 51 a /\
            parent (h a) <> None /\ a <> r.
Proof.
  intros Hc Hr Hk.
  replace k with (51 + (k - 51))%nat in Hc by lia.
  destruct (chain_split h d 51 (k - 51) r Hc) as (a & Hda & Har).
  assert (Hpa : parent (h a) <> None).
  { inversion Har as [Heq | a' t k' r' Ht Hc']; subst; [lia | congruence]. }
  exists a. split; [| split; [exact Hda | split; [exact Hpa | congruence]]].
  inversion Hda as [| d' q k' a' Hq Hqa]; subst.
  unfold Top. rewrite Hq, (Top_loop_full h 50 q a Hqa). reflexivity.
Qed.

(** X7. A box and its parent have the same [Top], when the parent is not
    the root itself and the root is at most 50 steps above the parent. *)
Theorem Top_shared_with_parent h d q k r :
  parent (h d) = Some q ->
  chain h q k r -> parent (h r) = None -> (1 <= k <= 50)%nat ->
  Top h d = Some r /\ Top h q = Some r.
Proof.
  intros Hd Hc Hr Hk. split.
  - unfold Top. rewrite Hd, (draw_facts.Top_loop_root h 50 q k r Hc Hr) by lia.
    reflexivity.
  - inversion Hc as [| q' t k' r' Ht Hc']; subst; [lia |].
    unfold Top. rewrite Ht, (draw_facts.Top_loop_root h 50 t k' r Hc' Hr) by lia.
    reflexivity.
Qed.

(** X8. A box made from a parent with a padding draws in the parent's
    frame shifted by the padding: [moveTo], [lineTo], [circle] and [text]
    at (x, y) in the new box issue the calls the parent issues at
    (x + padding.Left, y + padding.Top); the width and the height given
    do not matter. *)
Theorem padded_child_draws_in_parent_frame h ty pa W H padding :
  exists d,
    NewDraw h (mkDrawOption ty (Some pa) W H) [PaddingOption padding] = Ok d /\
    parent d = Some pa /\
    forall x y radius body r,
      let x' := add x (chart.Left padding) in
      let y' := add y (chart.Top padding) in
      moveTo d x y r = moveTo (h pa) x' y' r /\
      lineTo d x y r = lineTo (h pa) x' y' r /\
      circle d radius x y r = circle (h pa) radius x' y' r /\
      text d body x y r = text (h pa) body x' y' r.
Proof.
  assert (HL : forall c,
             add c (add (chart.Left (Box (h pa))) (chart.Left padding)) =
             add (add c (chart.Left padding)) (chart.Left (Box (h pa)))).
  { intros c. rewrite add_assoc. f_equal. apply add_comm. }
  assert (HT : forall c,
             add c (add (chart.Top (Box (h pa))) (chart.Top padding)) =
             add (add c (chart.Top padding)) (chart.Top (Box (h pa)))).
  { intros c. rewrite add_assoc. f_equal. apply add_comm. }
  unfold NewDraw, NewDraw_base. simpl.
  destruct (negb (W =? 0) && negb (H =? 0)); simpl;
    (eexists; split; [reflexivity |]; split; [reflexivity |]);
    intros x y radius body r;
    unfold moveTo, lineTo, circle, text; simpl; rewrite !HL, !HT; auto.
Qed.

End DrawMore.
End draw_more.

(* ===================================================================== *)
(** ** More properties of the bar chart *)
(* ===================================================================== *)

Module bar_chart_more.
Section BarChartMore.
Context `{F : Foreign} `{C : !bar_chart.Collaborators}.
Import GoInt bar_chart.

(** *** Where the calls of an item end up *)

Section ItemsLayout.
Variables (b : barChart) (result : defaultRenderResult).
Variable seriesNames : list string.
Variables vm vbm vbw H : Z.
Variables (index : nat) (series : Series).
Variables (yRange : AxisRange) (seriesColor : Color).
Variable dvs : list Z.

Let loop := items_loop b result seriesNames vm vbm vbw H index series
              yRange seriesColor dvs.
Let dc := divideCount (render_xRange b result).

Lemma items_loop_layout items : forall j st st',
  loop j items st = Done st' ->
  let n := Nat.min (length items) (Z.to_nat dc - j) in
  (exists ext, it_trace st' = it_trace st ++ ext /\
               length ext = (2 * n)%nat /\
               count_calls is_rect ext = n) /\
  (exists lex, it_labels st' = it_labels st ++ lex /\
               length lex = if Show (Label series) then n else O) /\
  (forall (k : nat) (item : SeriesData),
     items !! k = Some item -> Z.of_nat (j + k) < dc ->
     exists dv : Z,
       dvs !! (j + k)%nat = Some dv /\
       let x := bar_x vm vbm vbw index dv in
       let h := item_height yRange item in
       it_trace st' !! (length (it_trace st) + 2 * k)%nat =
         Some (OverrideDrawingStyle (fill_style (bar_fill seriesColor item))) /\
       it_trace st' !! (length (it_trace st) + 2 * k + 1)%nat =
         Some (Rect (bar_rect vbw H x h)) /\
       (Show (Label series) = true ->
        exists textBox,
          it_labels st' !! (length (it_labels st) + k)%nat =
            Some (label_request b seriesNames vbw H index series item x h
                    textBox))).
Proof.
  induction items as [| item rest IH]; intros j st st' Hrun n.
  - subst loop n. simpl in Hrun. injection Hrun as <-. simpl.
    split; [exists []; rewrite app_nil_r; auto |].
    split; [exists []; rewrite app_nil_r; destruct (Show (Label series)); auto |].
    intros k item Hk. discriminate.
  - subst loop dc. simpl in Hrun.
    destruct (Z.of_nat j >=? divideCount (render_xRange b result)) eqn:Hge.
    + apply Z.geb_le in Hge.
      destruct (IH _ _ _ Hrun) as (Htr & Hlb & _).
      assert (Hn : n = O) by (subst n; simpl length; lia).
      assert (Hn' : Nat.min (length rest)
                      (Z.to_nat (divideCount (render_xRange b result)) - S j) = O)
        by lia.
      rewrite Hn' in Htr, Hlb. rewrite Hn.
      split; [exact Htr |]. split; [exact Hlb |].
      intros k it Hk Hlt. lia.
    + rewrite Z.geb_leb, Z.leb_gt in Hge.
      destruct (dvs !! j) as [dv |] eqn:Hdv; [| discriminate].
      set (x := bar_x vm vbm vbw index dv) in *.
      set (h := Float64_to_int (getHeight yRange (Value item))) in *.
      assert (Hfill :
                (if negb (Color_IsZero (chart.FillColor (Style item)))
                 then chart.FillColor (Style item) else seriesColor)
                = bar_fill seriesColor item).
      { unfold bar_fill. destruct (Color_IsZero _); reflexivity. }
      rewrite Hfill in Hrun.
      assert (Hstep : exists st1,
                 items_loop b result seriesNames vm vbm vbw H index series
                   yRange seriesColor dvs (S j) rest st1 = Done st' /\
                 it_trace st1 =
                   it_trace st ++
                     [OverrideDrawingStyle (fill_style (bar_fill seriesColor item));
                      Rect (bar_rect vbw H x h)] /\
                 ((Show (Label series) = false /\ it_labels st1 = it_labels st) \/
                  (Show (Label series) = true /\
                   exists textBox,
                     it_labels st1 = it_labels st ++
                       [label_request b seriesNames vbw H index series item x h
                          textBox]))).
      { destruct (Show (Label series)) eqn:HShow; simpl in Hrun;
          eexists; (split; [exact Hrun |]); simpl; (split; [reflexivity |]).
        - right. split; [reflexivity |]. eexists. unfold label_request.
          fold h. destruct (Color_IsZero (LabelColor (Label series))); reflexivity.
        - left. auto. }
      clear Hrun. destruct Hstep as (st1 & Hrun & Htr1 & Hlb1).
      destruct (IH _ _ _ Hrun) as ((ext & Hext & Hlen & Hcount) &
                                   (lex & Hlex & Hllen) & Hitems).
      assert (Hn : n = S (Nat.min (length rest)
                     (Z.to_nat (divideCount (render_xRange b result)) - S j)))
        by (subst n; simpl length; lia).
      rewrite Hn. clear Hn n.
      set (n' := Nat.min (length rest)
                   (Z.to_nat (divideCount (render_xRange b result)) - S j)) in *.
      split; [| split].
      * eexists. split; [rewrite Hext, Htr1, <- app_assoc; reflexivity |].
        split; [simpl; lia |].
        unfold count_calls in *. simpl. lia.
      * destruct Hlb1 as [[HShow Hlb1] | [HShow (tb & Hlb1)]];
          rewrite HShow in Hllen |- *.
        -- exists lex. rewrite Hlex, Hlb1. auto.
        -- eexists. split; [rewrite Hlex, Hlb1, <- app_assoc; reflexivity |].
           simpl. lia.
      * intros [| k] it Hk Hlt.
        -- simpl in Hk. injection Hk as <-.
           rewrite !Nat.add_0_r. exists dv. split; [exact Hdv |].
           fold x. unfold item_height. fold h. simpl.
           rewrite Hext, Htr1, <- !app_assoc. simpl.
           split; [apply list_lookup_middle; reflexivity |].
           split.
           ++ unfold Trace in *. rewrite lookup_app_r by lia.
              replace (length (it_trace st) + 1 - length (it_trace st))%nat
                with 1%nat by lia.
              reflexivity.
           ++ intros HShow.
              destruct Hlb1 as [[HShow' _] | [_ (tb & Hlb1)]]; [congruence |].
              exists tb. rewrite Hlex, Hlb1, <- app_assoc. simpl.
              apply list_lookup_middle. reflexivity.
        -- simpl in Hk.
           replace (j + S k)%nat with (S j + k)%nat in * by lia.
           destruct (Hitems k it Hk Hlt) as (dv' & Hdv' & Hs & Hr & Hl).
           exists dv'. split; [exact Hdv' |]. simpl in Hs, Hr, Hl |- *.
           rewrite Htr1, length_app in Hs, Hr. simpl in Hs, Hr.
           split; [rewrite <- Hs; f_equal; lia |].
           split; [rewrite <- Hr; f_equal; lia |].
           intros HShow. destruct (Hl HShow) as (tb & Htb). exists tb.
           destruct Hlb1 as [[HShow' _] | [_ (tb1 & Hlb1)]]; [congruence |].
           rewrite Hlb1, length_app in Htb. simpl in Htb.
           rewrite <- Htb. f_equal. lia.
Qed.
End ItemsLayout.

Lemma count_calls_app f (t1 t2 : Trace) :
  count_calls f (t1 ++ t2) = (count_calls f t1 + count_calls f t2)%nat.
Proof. unfold count_calls. rewrite List.filter_app. apply length_app. Qed.

Lemma count_calls_none (P f : PainterCall -> bool) (t : Trace) :
  Forall (fun c => P c = true) t ->
  (forall c, P c = true -> f c = false) ->
  count_calls f t = O.
Proof.
  intros Hall Hf. unfold count_calls.
  induction Hall as [| c t Hc _ IH]; simpl; [reflexivity |].
  rewrite (Hf c Hc). exact IH.
Qed.

Lemma series_body_layout b result names vm vbm vbw H index series st st' :
  series_body b result names vm vbm vbw H index series st = Done st' ->
  let n := drawn_items b result series in
  let yRange := default AxisRange_zero (axisRanges result !! AxisIndex series) in
  let seriesColor := GetSeriesColor (Theme (opt b)) (series_index series) in
  (exists ext, trace st' = trace st ++ ext /\
               length ext = (2 * n)%nat /\ count_calls is_rect ext = n) /\
  (exists lex, labelRenderOptions st' = labelRenderOptions st ++ lex /\
               length lex = if Show (Label series) then n else O) /\
  markLineOpts st' = markLineOpts st ++
    [{| ml_FillColor := seriesColor;
        ml_FontColor := GetTextColor (Theme (opt b));
        ml_StrokeColor := seriesColor;
        ml_Font := Font (opt b);
        ml_Series := series;
        ml_Range := yRange |}] /\
  (exists pts, markPointOpts st' = markPointOpts st ++
     [{| mp_FillColor := seriesColor; mp_Font := Font (opt b);
         mp_Series := series; mp_Points := pts |}]) /\
  (forall (j : nat) (item : SeriesData),
     Data series !! j = Some item ->
     Z.of_nat j < divideCount (render_xRange b result) ->
     exists dv : Z,
       AutoDivide (render_xRange b result) !! j = Some dv /\
       let x := bar_x vm vbm vbw index dv in
       let h := item_height yRange item in
       trace st' !! (length (trace st) + 2 * j)%nat =
         Some (OverrideDrawingStyle (fill_style (bar_fill seriesColor item))) /\
       trace st' !! (length (trace st) + 2 * j + 1)%nat =
         Some (Rect (bar_rect vbw H x h)) /\
       (Show (Label series) = true ->
        exists textBox,
          labelRenderOptions st' !! (length (labelRenderOptions st) + j)%nat =
            Some (label_request b names vbw H index series item x h textBox))).
Proof.
  unfold series_body.
  match goal with
  | |- context [items_loop ?a1 ?a2 ?a3 ?a4 ?a5 ?a6 ?a7 ?a8 ?a9 ?a10 ?a11 ?a12 ?a13 ?a14 ?a15] =>
      destruct (items_loop a1 a2 a3 a4 a5 a6 a7 a8 a9 a10 a11 a12 a13 a14 a15)
        as [it | msg t] eqn:Hit; [| discriminate]
  end.
  intros Hdone. injection Hdone as <-. simpl.
  apply items_loop_layout in Hit as (Htr & Hlb & Hitems).
  simpl in Htr, Hlb, Hitems. rewrite Nat.sub_0_r in Htr, Hlb.
  split; [exact Htr |]. split; [exact Hlb |].
  split; [reflexivity |]. split; [eexists; reflexivity |].
  exact Hitems.
Qed.

Lemma series_loop_layout b result names vm vbm vbw H rest :
  forall index st st',
    series_loop b result names vm vbm vbw H index rest st = Done st' ->
    (exists ext, trace st' = trace st ++ ext /\
                 length ext = (2 * bars_in b result rest)%nat /\
                 count_calls is_rect ext = bars_in b result rest) /\
    (exists lex, labelRenderOptions st' = labelRenderOptions st ++ lex /\
                 length lex = labels_in b result rest) /\
    (exists mls, markLineOpts st' = markLineOpts st ++ mls /\
       length mls = length rest /\
       forall (i : nat) (series : Series), rest !! i = Some series ->
         mls !! i =
           Some {| ml_FillColor := GetSeriesColor (Theme (opt b)) (series_index series);
                   ml_FontColor := GetTextColor (Theme (opt b));
                   ml_StrokeColor := GetSeriesColor (Theme (opt b)) (series_index series);
                   ml_Font := Font (opt b);
                   ml_Series := series;
                   ml_Range := default AxisRange_zero
                                 (axisRanges result !! AxisIndex series) |}) /\
    (exists mps, markPointOpts st' = markPointOpts st ++ mps /\
       length mps = length rest /\
       forall (i : nat) (series : Series), rest !! i = Some series ->
         exists pts,
           mps !! i =
             Some {| mp_FillColor := GetSeriesColor (Theme (opt b)) (series_index series);
                     mp_Font := Font (opt b);
                     mp_Series := series;
                     mp_Points := pts |}) /\
    (forall (i : nat) (series : Series) (j : nat) (item : SeriesData),
       rest !! i = Some series ->
       Data series !! j = Some item ->
       Z.of_nat j < divideCount (render_xRange b result) ->
       exists dv : Z,
         AutoDivide (render_xRange b result) !! j = Some dv /\
         let yRange := default AxisRange_zero (axisRanges result !! AxisIndex series) in
         let seriesColor := GetSeriesColor (Theme (opt b)) (series_index series) in
         let x := bar_x vm vbm vbw (index + i) dv in
         let h := item_height yRange item in
         let pos := (length (trace st) + 2 * (bars_in b result (take i rest) + j))%nat in
         trace st' !! pos =
           Some (OverrideDrawingStyle (fill_style (bar_fill seriesColor item))) /\
         trace st' !! (pos + 1)%nat = Some (Rect (bar_rect vbw H x h)) /\
         (Show (Label series) = true ->
          exists textBox,
            labelRenderOptions st'
              !! (length (labelRenderOptions st)
                  + labels_in b result (take i rest) + j)%nat =
              Some (label_request b names vbw H (index + i) series item x h
                      textBox))).
Proof.
  induction rest as [| series tl IH]; intros index st st' Hrun.
  - simpl in Hrun. injection Hrun as <-.
    split; [exists []; rewrite app_nil_r; auto |].
    split; [exists []; rewrite app_nil_r; auto |].
    split; [exists []; rewrite app_nil_r; split; [reflexivity |];
            split; [reflexivity | intros i s Hi; discriminate] |].
    split; [exists []; rewrite app_nil_r; split; [reflexivity |];
            split; [reflexivity | intros i s Hi; discriminate] |].
    intros i s j item Hi. discriminate.
  - simpl in Hrun.
    destruct (series_body b result names vm vbm vbw H index series st)
      as [st1 | msg t] eqn:Hbody; [| discriminate].
    apply series_body_layout in Hbody
      as ((ext1 & Htr1 & Hlen1 & Hcnt1) & (lex1 & Hlb1 & Hllen1) &
          Hml1 & (pts & Hmp1) & Hitems1).
    destruct (IH _ _ _ Hrun)
      as ((ext & Htr & Hlen & Hcnt) & (lex & Hlb & Hllen) &
          (mls & Hml & Hmllen & Hmlall) & (mps & Hmp & Hmplen & Hmpall) & Hitems).
    assert (Hbars : bars_in b result (series :: tl)
                    = (drawn_items b result series + bars_in b result tl)%nat)
      by reflexivity.
    assert (Hlabels : labels_in b result (series :: tl)
                      = ((if Show (Label series) then drawn_items b result series
                          else O) + labels_in b result tl)%nat)
      by reflexivity.
    split; [| split; [| split; [| split]]].
    + exists (ext1 ++ ext). rewrite Htr, Htr1, <- app_assoc.
      split; [reflexivity |]. rewrite length_app, count_calls_app. lia.
    + exists (lex1 ++ lex). rewrite Hlb, Hlb1, <- app_assoc.
      split; [reflexivity |]. rewrite length_app. lia.
    + eexists. rewrite Hml, Hml1, <- app_assoc. split; [reflexivity |].
      split; [simpl; lia |].
      intros [| i] s Hi; simpl in Hi |- *; [injection Hi as <-; reflexivity |].
      apply Hmlall. exact Hi.
    + eexists. rewrite Hmp, Hmp1, <- app_assoc. split; [reflexivity |].
      split; [simpl; lia |].
      intros [| i] s Hi; simpl in Hi |- *;
        [injection Hi as <-; eexists; reflexivity |].
      apply Hmpall. exact Hi.
    + intros [| i] s j item Hi Hj Hlt; simpl in Hi.
      * injection Hi as <-.
        destruct (Hitems1 j item Hj Hlt) as (dv & Hdv & Hs & Hr & Hl).
        exists dv. split; [exact Hdv |]. cbv zeta in Hs, Hr, Hl |- *.
        change (bars_in b result (take 0 (series :: tl))) with O.
        change (labels_in b result (take 0 (series :: tl))) with O.
        rewrite !Nat.add_0_r.
        split; [rewrite Htr; apply lookup_app_l_Some; rewrite <- Hs; f_equal; lia |].
        split; [rewrite Htr; apply lookup_app_l_Some; rewrite <- Hr; f_equal; lia |].
        intros HShow. destruct (Hl HShow) as (tb & Htb). exists tb.
        rewrite Hlb. apply lookup_app_l_Some. exact Htb.
      * destruct (Hitems i s j item Hi Hj Hlt) as (dv & Hdv & Hs & Hr & Hl).
        exists dv. split; [exact Hdv |]. cbv zeta in Hs, Hr, Hl |- *.
        replace (index + S i)%nat with (S index + i)%nat by lia.
        rewrite Htr1, length_app, Hlen1 in Hs, Hr.
        change (take (S i) (series :: tl)) with (series :: take i tl).
        change (bars_in b result (series :: take i tl))
          with (drawn_items b result series + bars_in b result (take i tl))%nat.
        change (labels_in b result (series :: take i tl))
          with ((if Show (Label series) then drawn_items b result series else O)
                + labels_in b result (take i tl))%nat.
        split; [rewrite <- Hs; f_equal; lia |].
        split; [rewrite <- Hr; f_equal; lia |].
        intros HShow. destruct (Hl HShow) as (tb & Htb). exists tb.
        rewrite Hlb1, length_app, Hllen1 in Htb.
        rewrite <- Htb. f_equal. lia.
Qed.

Lemma flush_labels_flat labels t :
  flush_labels labels t = t ++ flat_map label_calls labels.
Proof.
  unfold flush_labels. revert t.
  induction labels as [| l rest IH]; intros t; simpl.
  - rewrite app_nil_r. reflexivity.
  - rewrite IH, <- app_assoc. reflexivity.
Qed.

Lemma label_calls_layout labels :
  length (flat_map label_calls labels) = (2 * length labels)%nat /\
  count_calls is_rect (flat_map label_calls labels) = O /\
  count_calls is_text (flat_map label_calls labels) = length labels /\
  forall (k : nat) (l : barChartLabelRenderOption),
    labels !! k = Some l ->
    flat_map label_calls labels !! (2 * k)%nat
      = Some (OverrideTextStyle (lbl_Style l)) /\
    flat_map label_calls labels !! (2 * k + 1)%nat
      = Some (Text (lbl_Text l) (lbl_X l) (lbl_Y l)).
Proof.
  induction labels as [| l0 rest (Hlen & Hrect & Htext & Hall)].
  - repeat split; try reflexivity; discriminate.
  - unfold count_calls in *. simpl. split; [lia |].
    split; [exact Hrect |]. split; [lia |].
    intros [| k] l Hk; simpl in Hk.
    + injection Hk as <-. split; reflexivity.
    + destruct (Hall k l Hk) as (Hs & Ht).
      match goal with
      | |- _ !! ?p1 = _ /\ _ !! ?p2 = _ =>
          replace p2 with (S (S (2 * k + 1))) by lia;
          replace p1 with (S (S (2 * k))) by lia
      end.
      split; [exact Hs | exact Ht].
Qed.

(** The calls of a whole render, laid out: the bars, then the calls of the
    deferred labels in the order of their requests, then the overlays. *)
Lemma render_layout b result seriesList :
  seriesList <> [] ->
  divideCount (render_xRange b result)
    <= Z.of_nat (length (AutoDivide (render_xRange b result))) ->
  exists st bw overlays,
    barWidth (render_width b result) (Z.of_nat (length seriesList)) = Some bw /\
    render_series b result seriesList = Done st /\
    series_loop b result (Names seriesList) (margin (render_width b result))
      (barMargin (render_width b result)) bw
      (Painter_Height (seriesPainter result)) O seriesList
      (mkLoopState [] [] [] []) = Done st /\
    fst (render b result seriesList) =
      trace st ++ flat_map label_calls (labelRenderOptions st) ++ overlays /\
    Forall (fun c => is_overlay_call c = true) overlays /\
    Forall (fun c => is_bar_call c = true) (trace st).
Proof.
  intros Hne Hlen.
  destruct (bar_chart_facts.render_series_done b result seriesList Hne Hlen)
    as (st & bw & Hbw & Hst & Hloop).
  pose proof (bar_chart_facts.render_series_calls b result seriesList) as Hbars.
  rewrite Hst in Hbars. simpl in Hbars.
  unfold render. rewrite Hst, flush_labels_flat.
  match goal with
  | |- context [doRender ?rs ?t] =>
      destruct (bar_chart_facts.doRender_painters_calls (seriesPainter result)
                  (markPointOpts st) (markLineOpts st) t)
        as (overlays & Ho & Hoverlays);
      destruct (doRender rs t) as [t' [e |]]
  end; simpl in Ho; subst t'; simpl;
    exists st, bw, overlays; rewrite <- app_assoc; auto 10.
Qed.

(** X9. With at least one series and enough boundaries for the category
    count, the bars are drawn series after series and, in a series,
    category after category: the calls of the item [j] of the series
    number [i] are at the positions 2 p and 2 p + 1 of the render, p being
    the number of bars of the series before plus [j]. The first sets the
    fill colour, the item's own when it has one and the theme's colour
    for [series.index] otherwise; the second is the rectangle from
    (x, height - h) to (x + barWidth, height - 1). *)
Theorem bars_drawn_in_order b result seriesList :
  seriesList <> [] ->
  divideCount (render_xRange b result)
    <= Z.of_nat (length (AutoDivide (render_xRange b result))) ->
  exists bw,
    barWidth (render_width b result) (Z.of_nat (length seriesList)) = Some bw /\
    forall (i : nat) (series : Series) (j : nat) (item : SeriesData),
      seriesList !! i = Some series ->
      Data series !! j = Some item ->
      Z.of_nat j < divideCount (render_xRange b result) ->
      exists dv : Z,
        AutoDivide (render_xRange b result) !! j = Some dv /\
        let width := render_width b result in
        let barMaxHeight := Painter_Height (seriesPainter result) in
        let x := add (add dv (margin width))
                     (mul (Z.of_nat i) (add bw (barMargin width))) in
        let h := Float64_to_int
                   (getHeight
                      (default AxisRange_zero
                         (axisRanges result !! AxisIndex series))
                      (Value item)) in
        let pos := (2 * (bars_in b result (take i seriesList) + j))%nat in
        fst (render b result seriesList) !! pos =
          Some (OverrideDrawingStyle
                  (fill_style
                     (if Color_IsZero (chart.FillColor (Style item))
                      then GetSeriesColor (Theme (opt b)) (series_index series)
                      else chart.FillColor (Style item)))) /\
        fst (render b result seriesList) !! (pos + 1)%nat =
          Some (Rect {| chart.Top := sub barMaxHeight h;
                        chart.Left := x;
                        chart.Right := add x bw;
                        chart.Bottom := sub barMaxHeight 1 |}).
Proof.
  intros Hne Hlen.
  destruct (render_layout b result seriesList Hne Hlen)
    as (st & bw & overlays & Hbw & _ & Hloop & Htrace & _ & _).
  exists bw. split; [exact Hbw |].
  intros i series j item Hi Hj Hlt.
  apply series_loop_layout in Hloop as (_ & _ & _ & _ & Hitems).
  destruct (Hitems i series j item Hi Hj Hlt) as (dv & Hdv & Hs & Hr & _).
  exists dv. split; [exact Hdv |].
  cbv zeta in Hs, Hr |- *. simpl length in Hs, Hr. rewrite Nat.add_0_l in Hs, Hr.
  rewrite bar_chart_facts.bar_x_formula in Hr.
  rewrite Htrace. split; apply lookup_app_l_Some; assumption.
Qed.


(** X11. With at least one series and enough boundaries for the category
    count, a render draws exactly one rectangle for each data item that
    falls on a category and exactly one text for each such item of a
    series that shows its labels; what the overlay painters draw is not
    counted. *)
Theorem render_call_counts b result seriesList :
  seriesList <> [] ->
  divideCount (render_xRange b result)
    <= Z.of_nat (length (AutoDivide (render_xRange b result))) ->
  count_calls is_rect (fst (render b result seriesList))
    = bars_in b result seriesList /\
  count_calls is_text (fst (render b result seriesList))
    = labels_in b result seriesList.
Proof.
  intros Hne Hlen.
  destruct (render_layout b result seriesList Hne Hlen)
    as (st & bw & overlays & _ & _ & Hloop & Htrace & Hoverlays & Hbars).
  apply series_loop_layout in Hloop
    as ((ext & Hext & _ & Hcount) & (lex & Hlex & Hlexlen) & _).
  simpl in Hext, Hlex. subst ext lex.
  destruct (label_calls_layout (labelRenderOptions st)) as (_ & Hr0 & Ht & _).
  rewrite Htrace, !count_calls_app, Hcount, Hr0, Ht, Hlexlen.
  rewrite (count_calls_none is_overlay_call is_rect overlays Hoverlays)
    by (intros []; simpl; congruence).
  rewrite (count_calls_none is_overlay_call is_text overlays Hoverlays)
    by (intros []; simpl; congruence).
  rewrite (count_calls_none is_bar_call is_text (trace st) Hbars)
    by (intros []; simpl; congruence).
  lia.
Qed.

(** X12. With at least one series and enough boundaries for the category
    count, each series is registered once with each overlay painter, in
    the order of the series: the mark line option of the series number
    [i] has the theme's colour for [series.index] as fill and stroke
    colour, the theme's text colour, and the axis range found under the
    series' [AxisIndex], the zero range when that key is missing; the
    mark point option has the same fill colour and the series. *)
Theorem overlays_registered_per_series b result seriesList :
  seriesList <> [] ->
  divideCount (render_xRange b result)
    <= Z.of_nat (length (AutoDivide (render_xRange b result))) ->
  exists st,
    render_series b result seriesList = Done st /\
    length (markLineOpts st) = length seriesList /\
    length (markPointOpts st) = length seriesList /\
    forall (i : nat) (series : Series),
      seriesList !! i = Some series ->
      markLineOpts st !! i =
        Some {| ml_FillColor := GetSeriesColor (Theme (opt b)) (series_index series);
                ml_FontColor := GetTextColor (Theme (opt b));
                ml_StrokeColor := GetSeriesColor (Theme (opt b)) (series_index series);
                ml_Font := Font (opt b);
                ml_Series := series;
                ml_Range := match axisRanges result !! AxisIndex series with
                            | Some r => r
                            | None => AxisRange_zero
                            end |} /\
      exists pts,
        markPointOpts st !! i =
          Some {| mp_FillColor := GetSeriesColor (Theme (opt b)) (series_index series);
                  mp_Font := Font (opt b);
                  mp_Series := series;
                  mp_Points := pts |}.
Proof.
  intros Hne Hlen.
  destruct (render_layout b result seriesList Hne Hlen)
    as (st & bw & overlays & _ & Hst & Hloop & _).
  exists st. split; [exact Hst |].
  apply series_loop_layout in Hloop
    as (_ & _ & (mls & Hml & Hmllen & Hmlall) & (mps & Hmp & Hmplen & Hmpall) & _).
  simpl in Hml, Hmp. subst mls mps.
  split; [exact Hmllen |]. split; [exact Hmplen |].
  intros i series Hi. split.
  - rewrite (Hmlall i series Hi). reflexivity.
  - apply Hmpall. exact Hi.
Qed.

(** X13. With at least one series and enough boundaries for the category
    count, the bars of two consecutive series on the same category stand
    side by side: the left edge of the second is the right edge of the
    first plus barMargin (Go's addition), and both have the same bottom. *)
Theorem consecutive_bars_barMargin_apart b result seriesList
    (i : nat) (s1 s2 : Series) (j : nat) (item1 item2 : SeriesData) :
  divideCount (render_xRange b result)
    <= Z.of_nat (length (AutoDivide (render_xRange b result))) ->
  seriesList !! i = Some s1 -> seriesList !! S i = Some s2 ->
  Data s1 !! j = Some item1 -> Data s2 !! j = Some item2 ->
  Z.of_nat j < divideCount (render_xRange b result) ->
  exists bx1 bx2,
    fst (render b result seriesList)
      !! (2 * (bars_in b result (take i seriesList) + j) + 1)%nat
      = Some (Rect bx1) /\
    fst (render b result seriesList)
      !! (2 * (bars_in b result (take (S i) seriesList) + j) + 1)%nat
      = Some (Rect bx2) /\
    chart.Left bx2 = add (chart.Right bx1) (barMargin (render_width b result)) /\
    chart.Bottom bx2 = chart.Bottom bx1.
Proof.
  intros Hlen H1 H2 Hj1 Hj2 Hlt.
  assert (Hne : seriesList <> []) by (intros ->; discriminate).
  destruct (render_layout b result seriesList Hne Hlen)
    as (st & bw & overlays & _ & _ & Hloop & Htrace & _ & _).
  apply series_loop_layout in Hloop as (_ & _ & _ & _ & Hitems).
  destruct (Hitems i s1 j item1 H1 Hj1 Hlt) as (dv & Hdv & _ & Hr1 & _).
  destruct (Hitems (S i) s2 j item2 H2 Hj2 Hlt) as (dv' & Hdv' & _ & Hr2 & _).
  rewrite Hdv in Hdv'. injection Hdv' as <-.
  cbv zeta in Hr1, Hr2. simpl length in Hr1, Hr2. rewrite Nat.add_0_l in Hr1, Hr2.
  rewrite bar_chart_facts.bar_x_formula in Hr1, Hr2.
  eexists. eexists. rewrite Htrace.
  split; [apply lookup_app_l_Some; exact Hr1 |].
  split; [apply lookup_app_l_Some; exact Hr2 |].
  split; [| reflexivity]. simpl.
  replace (Z.of_nat (S i)) with (Z.of_nat i + 1) by lia.
  rewrite mul_succ_l, <- !add_assoc. reflexivity.
Qed.

Lemma barWidth_exact (width n : Z) :
  1 <= n <= 2 ^ 32 -> - 2 ^ 62 <= width <= 2 ^ 62 ->
  barWidth width n =
    Some (Z.quot (width - 2 * margin width - barMargin width * (n - 1)) n).
Proof.
  intros Hn Hw.
  pose proof (bar_chart_facts.margin_cases width) as Hm.
  set (N := width - 2 * margin width - barMargin width * (n - 1)).
  assert (Hb : Z.abs N <= 2 ^ 62 + 20 + 5 * 2 ^ 32) by (subst N; lia).
  unfold barWidth.
  rewrite (mul_exact 2) by (unfold in_int, min_int, max_int; lia).
  rewrite (sub_exact width) by (unfold in_int, min_int, max_int; lia).
  rewrite (sub_exact n) by (unfold in_int, min_int, max_int; lia).
  rewrite (mul_exact (barMargin width)) by (unfold in_int, min_int, max_int; lia).
  rewrite sub_exact by (unfold in_int, min_int, max_int; fold N; lia).
  fold N. rewrite quo_nonzero by lia.
  rewrite wrap_exact; [reflexivity |].
  pose proof (bar_chart_facts.quot_bounds N n ltac:(lia)).
  unfold in_int, min_int, max_int. lia.
Qed.

(** X14. When the bar width is positive (and nothing wraps around: a
    series count of at most 2^32, a slot width and a boundary of at most
    2^62 in absolute value), every bar stays inside its slot with the
    margin on both sides: for the series number [index] the left edge is
    boundary + margin + index (barWidth + barMargin), at least a margin
    after the boundary, and the right edge is at least a margin before
    boundary + width. *)
Theorem bars_inside_slot (width n bw dv : Z) (index : nat) :
  1 <= n <= 2 ^ 32 -> - 2 ^ 62 <= width <= 2 ^ 62 ->
  - 2 ^ 62 <= dv <= 2 ^ 62 -> Z.of_nat index < n ->
  barWidth width n = Some bw -> 0 < bw ->
  let x := bar_x (margin width) (barMargin width) bw index dv in
  x = dv + margin width + Z.of_nat index * (bw + barMargin width) /\
  add x bw = x + bw /\
  dv + margin width <= x /\
  x + bw + margin width <= dv + width.
Proof.
  intros Hn Hw Hdv Hi Hbw Hpos x.
  rewrite (barWidth_exact width n Hn Hw) in Hbw. injection Hbw as Hbw.
  set (N := width - 2 * margin width - barMargin width * (n - 1)) in *.
  assert (HN : 0 <= N).
  { destruct (Z.le_gt_cases 0 N) as [| HN]; [assumption |].
    pose proof (bar_chart_facts.quot_nonpos_of_neg N n HN ltac:(lia)). lia. }
  rewrite Z.quot_div_nonneg in Hbw by lia.
  pose proof (Z.mul_div_le N n ltac:(lia)) as Hle. rewrite Hbw in Hle.
  pose proof (bar_chart_facts.margin_cases width) as Hm.
  assert (Hbm : 0 < barMargin width) by lia.
  assert (Hprod : 0 <= Z.of_nat index * (bw + barMargin width)
                  <= (n - 1) * (bw + barMargin width)) by nia.
  assert (Hfit : n * bw + barMargin width * (n - 1) + 2 * margin width <= width)
    by (subst N; lia).
  assert (Hx : x = dv + margin width + Z.of_nat index * (bw + barMargin width)).
  { subst x. rewrite bar_chart_facts.bar_x_formula.
    rewrite (add_exact dv) by (unfold in_int, min_int, max_int; lia).
    rewrite (add_exact bw) by (unfold in_int, min_int, max_int; nia).
    rewrite mul_exact by (unfold in_int, min_int, max_int; nia).
    rewrite add_exact by (unfold in_int, min_int, max_int; nia).
    reflexivity. }
  split; [exact Hx |]. rewrite Hx.
  split; [apply add_exact; unfold in_int, min_int, max_int; nia |].
  split; nia.
Qed.





End BarChartMore.
End bar_chart_more.

(* ===================================================================== *)
(** ** The further properties on concrete inputs *)
(* ===================================================================== *)

Module more_examples.
Import GoInt demo.

#[local] Existing Instance foreign.
#[local] Existing Instance backend.

(** *** [draw.go] *)

Lemma NewDraw_root_needs_size_witness :
  draw.NewDraw heap_chain (draw.mkDrawOption "png" None 0 400) [failing_option]
    = Fail ("parent and width/height can not be nil"%string : @Err foreign).
Proof.
  apply (draw_more.NewDraw_root_needs_size heap_chain "png" 0 400 [failing_option]).
  left. lia.
Defined.

Lemma NewDraw_root_witness :
  draw.NewDraw heap_chain (draw.mkDrawOption "png" None 600 400) [] =
    Ok (mk 2 (chart.mkBox 0 0 600 400) None) /\
  draw.NewDraw (B := backend_no_svg) heap_chain
    (draw.mkDrawOption "svg" None 600 400) [failing_option] =
    Fail ("no svg"%string : @Err foreign).
Proof.
  split.
  - destruct (draw_more.NewDraw_root heap_chain "png" 600 400) as (Hok & _);
      [unfold max_int; lia | unfold max_int; lia |].
    apply (Hok 2%nat). reflexivity.
  - destruct (draw_more.NewDraw_root (B := backend_no_svg) heap_chain "svg" 600 400)
      as (_ & Hfail); [unfold max_int; lia | unfold max_int; lia |].
    apply (Hfail "no svg"%string [failing_option]). reflexivity.
Defined.

Lemma NewDraw_stops_at_failing_option_witness :
  draw.NewDraw heap_chain (draw.mkDrawOption "png" (Some 1%nat) 100 50)
    ([draw.PaddingOption pad] ++ failing_option :: [draw.PaddingOption pad])
    = Fail ("bad option"%string : @Err foreign).
Proof.
  eapply (draw_more.NewDraw_stops_at_failing_option heap_chain
            (draw.mkDrawOption "png" (Some 1%nat) 100 50)
            [draw.PaddingOption pad] failing_option [draw.PaddingOption pad]);
    reflexivity.
Defined.

Lemma Top_is_an_ancestor_witness :
  draw.Top heap_chain 3%nat = Some 0%nat /\
  exists k : nat, (1 <= k <= 51)%nat /\ draw.chain heap_chain 3%nat k 0%nat /\
                  (draw.parent (heap_chain 0%nat) = None \/ k = 51%nat).
Proof.
  split; [reflexivity |].
  destruct (draw_more.Top_is_an_ancestor heap_chain 3%nat) as (_ & Hanc).
  apply (Hanc 0%nat). reflexivity.
Defined.

Lemma heap_deep_chain (k d : nat) : draw.chain heap_deep (k + d)%nat k d.
Proof.
  induction k as [| k IH]; simpl; [constructor |].
  econstructor; [reflexivity | exact IH].
Qed.

(** From the box 60 the root 0 is 60 steps up: [Top] is the box 9. *)
Lemma Top_beyond_cap_witness :
  draw.Top heap_deep 60%nat = Some 9%nat /\
  draw.parent (heap_deep 9%nat) <> None.
Proof.
  destruct (draw_more.Top_beyond_cap heap_deep 60%nat 60%nat 0%nat)
    as (a & Ha & _ & Hpa & _);
    [exact (heap_deep_chain 60 0) | reflexivity | lia |].
  assert (Ha' : draw.Top heap_deep 60%nat = Some 9%nat) by reflexivity.
  rewrite Ha in Ha'. injection Ha' as ->.
  split; [exact Ha | exact Hpa].
Defined.

Lemma Top_shared_with_parent_witness :
  draw.Top heap_chain 3%nat = Some 0%nat /\
  draw.Top heap_chain 2%nat = Some 0%nat.
Proof.
  apply (draw_more.Top_shared_with_parent heap_chain 3%nat 2%nat 2%nat 0%nat);
    [reflexivity | | reflexivity | lia].
  repeat (econstructor; [reflexivity |]). constructor.
Defined.

(** *** The bar chart *)

Lemma bars_drawn_in_order_witness :
  fst (bar_chart.render (C := quiet) chart3 result3 two_series) !! 10%nat
    = Some (bar_chart.OverrideDrawingStyle (bar_chart.fill_style (2 : @Color foreign))) /\
  fst (bar_chart.render (C := quiet) chart3 result3 two_series) !! 11%nat
    = Some (bar_chart.Rect (chart.mkBox 147 252 289 149)).
Proof.
  destruct (bar_chart_more.bars_drawn_in_order (C := quiet)
              chart3 result3 two_series)
    as (bw & Hbw & Hall); [discriminate | exact examples.two_series_fit |].
  destruct (Hall 1%nat (series 1 false [1; 2; 3; 4]) 2%nat (item 3))
    as (dv & Hdv & Hs & Hr); [reflexivity | reflexivity | reflexivity |].
  vm_compute in Hbw. injection Hbw as <-.
  vm_compute in Hdv. injection Hdv as <-.
  split; [exact Hs | exact Hr].
Defined.


Lemma render_call_counts_witness :
  bar_chart.count_calls bar_chart.is_rect
    (fst (bar_chart.render (C := quiet) chart3 result3 two_series)) = 6%nat /\
  bar_chart.count_calls bar_chart.is_text
    (fst (bar_chart.render (C := quiet) chart3 result3 two_series)) = 3%nat.
Proof.
  destruct (bar_chart_more.render_call_counts (C := quiet)
              chart3 result3 two_series)
    as (Hr & Ht); [discriminate | exact examples.two_series_fit |].
  split; [exact Hr | exact Ht].
Defined.

Lemma overlays_registered_per_series_witness :
  exists st,
    bar_chart.render_series (C := quiet) chart3 result3 two_series
      = bar_chart.Done st /\
    option_map bar_chart.ml_Range (bar_chart.markLineOpts st !! 1%nat)
      = Some ((10, 150) : @AxisRange foreign) /\
    option_map bar_chart.ml_FillColor (bar_chart.markLineOpts st !! 1%nat)
      = Some (2 : @Color foreign).
Proof.
  destruct (bar_chart_more.overlays_registered_per_series (C := quiet)
              chart3 result3 two_series)
    as (st & Hst & _ & _ & Hall); [discriminate | exact examples.two_series_fit |].
  destruct (Hall 1%nat (series 1 false [1; 2; 3; 4]) eq_refl) as (Hml & _).
  exists st. split; [exact Hst |]. rewrite Hml. split; reflexivity.
Defined.

Lemma consecutive_bars_barMargin_apart_witness :
  exists bx1 bx2,
    fst (bar_chart.render (C := quiet) chart3 result3 two_series) !! 1%nat
      = Some (bar_chart.Rect bx1) /\
    fst (bar_chart.render (C := quiet) chart3 result3 two_series) !! 7%nat
      = Some (bar_chart.Rect bx2) /\
    chart.Left bx2 = GoInt.add (chart.Right bx1) 5.
Proof.
  destruct (bar_chart_more.consecutive_bars_barMargin_apart (C := quiet)
              chart3 result3 two_series 0%nat
              (series 0 true [10; 20; 5]) (series 1 false [1; 2; 3; 4])
              0%nat (item 10) (item 1))
    as (bx1 & bx2 & H1 & H2 & Hleft & _);
    [exact examples.two_series_fit | reflexivity | reflexivity
     | reflexivity | reflexivity | reflexivity |].
  exists bx1, bx2. split; [exact H1 |]. split; [exact H2 | exact Hleft].
Defined.

Lemma bars_inside_slot_witness :
  bar_chart.bar_x 10 5 37 1 100 = 152 /\
  100 + 10 <= 152 /\ 152 + 37 + 10 <= 100 + 100.
Proof.
  destruct (bar_chart_more.bars_inside_slot 100 2 37 100 1%nat)
    as (Hx & _ & Hleft & Hright);
    [lia | lia | lia | lia | reflexivity | lia |].
  split; [exact Hx |]. split; [exact Hleft | exact Hright].
Defined.



End more_examples.
